(** * Shallow embedding of xk6-tempo (pkg/generator, pkg/tempo)

    Go values are modelled as follows: [int], [int64] and [time.Duration]
    as [Z] (nanoseconds for durations and instants), [float64] as [Q]
    (exact rationals: rounding is not modelled), strings as [String.string]
    (one [ascii] per byte of the UTF-8 encoding).  Reads of the wall clock
    ([time.Now()]) are explicit arguments. *)

From Stdlib Require Import ZArith QArith Qround String Ascii List Bool Lia.
From Stdlib Require Import Sorting.Sorted.
Import ListNotations.

Open Scope Z_scope.

(** ** Go standard library: [strconv] and [time.ParseDuration] *)
Module GoStd.

Definition Nanosecond : Z := 1.
Definition Microsecond : Z := 1000.
Definition Millisecond : Z := 1000000.
Definition Second : Z := 1000000000.
Definition Minute : Z := 60 * Second.
Definition Hour : Z := 60 * Minute.

Definition is_digit (c : ascii) : bool :=
  let n := nat_of_ascii c in ((48 <=? n)%nat && (n <=? 57)%nat)%bool.

Definition digit_val (c : ascii) : Z := Z.of_nat (nat_of_ascii c) - 48.

Definition digit_char (d : Z) : ascii := ascii_of_nat (48 + Z.to_nat d).

(** [strconv.FormatInt(n, 10)], also what [fmt.Sprintf("%d", n)] prints:
    the decimal digits of [|n|], most significant first, after a ["-"] for
    negative [n]. *)
Fixpoint dec_digits (fuel : nat) (m : Z) : list Z :=
  match fuel with
  | O => []
  | S f => if m <? 10 then [m] else dec_digits f (m / 10) ++ [m mod 10]
  end.

Definition string_of_digits (l : list Z) : string :=
  fold_right (fun d s => String (digit_char d) s) EmptyString l.

Definition pos_string (m : Z) : string :=
  string_of_digits (dec_digits (S (Z.to_nat (Z.log2 m))) m).

Definition FormatInt (n : Z) : string :=
  if n <? 0 then String "-" (pos_string (- n)) else pos_string n.

(** Digits of a base-10 unsigned integer, [ParseUint(s, 10, _)] without
    its range check; [None] on the first byte that is not a digit. *)
Fixpoint digits_value (s : string) (acc : Z) : option Z :=
  match s with
  | EmptyString => Some acc
  | String c r => if is_digit c then digits_value r (acc * 10 + digit_val c) else None
  end.

(** [strconv.ParseInt(s, 10, 64)] (and [strconv.Atoi] on a 64-bit target):
    an optional sign, at least one decimal digit, a value in the int64
    range; [None] stands for the returned error. *)
Definition ParseInt (s : string) : option Z :=
  match s with
  | EmptyString => None
  | String c r =>
      let '(neg, body) :=
        if Ascii.eqb c "+" then (false, r)
        else if Ascii.eqb c "-" then (true, r) else (false, s) in
      match body with
      | EmptyString => None
      | _ =>
          match digits_value body 0 with
          | None => None
          | Some un =>
              if negb neg && (2 ^ 63 <=? un) then None
              else if neg && (2 ^ 63 <? un) then None
              else Some (if neg then - un else un)
          end
      end
  end.

Definition Atoi := ParseInt.

Fixpoint all_digits (s : string) : bool :=
  match s with
  | EmptyString => true
  | String c r => (is_digit c && all_digits r)%bool
  end.

(** [time.ParseDuration], following Go's [leadingInt], [leadingFraction]
    and [unitMap].  The fractional part [float64(f) * (float64(unit) /
    scale)] is computed exactly. *)
Fixpoint leadingInt_aux (s : string) (x : Z) : option (Z * string) :=
  match s with
  | EmptyString => Some (x, EmptyString)
  | String c rest =>
      if negb (is_digit c) then Some (x, s)
      else if 2 ^ 63 / 10 <? x then None
      else
        let x' := x * 10 + digit_val c in
        if 2 ^ 63 <? x' then None else leadingInt_aux rest x'
  end.

Definition leadingInt (s : string) : option (Z * string) := leadingInt_aux s 0.

Fixpoint leadingFraction_aux (s : string) (x scale : Z) (overflow : bool)
  : Z * Z * string :=
  match s with
  | EmptyString => (x, scale, EmptyString)
  | String c rest =>
      if negb (is_digit c) then (x, scale, s)
      else if overflow then leadingFraction_aux rest x scale true
      else if (2 ^ 63 - 1) / 10 <? x then leadingFraction_aux rest x scale true
      else
        let y := x * 10 + digit_val c in
        if 2 ^ 63 <? y then leadingFraction_aux rest x scale true
        else leadingFraction_aux rest y (scale * 10) false
  end.

(** The unit: the longest prefix of bytes that are neither ['.'] nor digits. *)
Fixpoint span_unit (s : string) : string * string :=
  match s with
  | EmptyString => (EmptyString, EmptyString)
  | String c rest =>
      if (Ascii.eqb c "." || is_digit c)%bool then (EmptyString, s)
      else let (u, r) := span_unit rest in (String c u, r)
  end.

(** ["µs"] (U+00B5) and ["μs"] (U+03BC) in UTF-8. *)
Definition micro_sign_s : string := String (ascii_of_nat 194) (String (ascii_of_nat 181) "s").
Definition greek_mu_s : string := String (ascii_of_nat 206) (String (ascii_of_nat 188) "s").

Definition unitMap (u : string) : option Z :=
  if String.eqb u "ns" then Some Nanosecond
  else if String.eqb u "us" then Some Microsecond
  else if String.eqb u micro_sign_s then Some Microsecond
  else if String.eqb u greek_mu_s then Some Microsecond
  else if String.eqb u "ms" then Some Millisecond
  else if String.eqb u "s" then Some Second
  else if String.eqb u "m" then Some Minute
  else if String.eqb u "h" then Some Hour
  else None.

(** One iteration of the [for s != ""] loop per fuel unit; every
    iteration consumes at least one byte, so [length s] fuel suffices. *)
Fixpoint pd_loop (fuel : nat) (s : string) (d : Z) : option Z :=
  match s with
  | EmptyString => Some d
  | String c _ =>
      match fuel with
      | O => None
      | S fuel' =>
          if negb (Ascii.eqb c "." || is_digit c)%bool then None else
          match leadingInt s with
          | None => None
          | Some (v, s1) =>
              let pre := negb (Nat.eqb (String.length s) (String.length s1)) in
              let '(f, scale, s2, post) :=
                match s1 with
                | String c1 r =>
                    if Ascii.eqb c1 "." then
                      let '(f, sc, r') := leadingFraction_aux r 0 1 false in
                      (f, sc, r', negb (Nat.eqb (String.length r) (String.length r')))
                    else (0, 1, s1, false)
                | EmptyString => (0, 1, s1, false)
                end in
              if negb (pre || post) then None else
              let (u, s3) := span_unit s2 in
              if String.eqb u EmptyString then None else
              match unitMap u with
              | None => None
              | Some unit =>
                  if 2 ^ 63 / unit <? v then None else
                  let v1 := v * unit in
                  let v2 := if 0 <? f then v1 + (f * unit) / scale else v1 in
                  if (0 <? f) && (2 ^ 63 <? v2) then None else
                  let d' := d + v2 in
                  if 2 ^ 63 <? d' then None else pd_loop fuel' s3 d'
              end
          end
      end
  end.

Definition ParseDuration (s0 : string) : option Z :=
  let '(neg, s) :=
    match s0 with
    | String c r =>
        if Ascii.eqb c "-" then (true, r)
        else if Ascii.eqb c "+" then (false, r) else (false, s0)
    | EmptyString => (false, s0)
    end in
  if String.eqb s "0" then Some 0
  else if String.eqb s EmptyString then None
  else
    match pd_loop (String.length s) s 0 with
    | None => None
    | Some d => if neg then Some (- d) else if 2 ^ 63 - 1 <? d then None else Some d
    end.

(** The value of a list of decimal digits, most significant first. *)
Definition dec_value (l : list Z) : Z := fold_left (fun a d => a * 10 + d) l 0.

End GoStd.

Import GoStd.

(** ** Query client: [parseTime] and [searchWithHTTP]'s time parameters
    (pkg/tempo/query.go) *)
Module QueryClient.

(** [parseTime]: a signed duration relative to [now], else a nanosecond
    epoch integer, else RFC 3339.  [time.Parse(time.RFC3339, _)] is the
    argument [rfc3339], [time.Now()] is [now]. *)
Definition parseTime (rfc3339 : string -> option Z) (now : Z) (timeStr : string)
  : option Z :=
  match ParseDuration timeStr with
  | Some duration => Some (now - duration)
  | None =>
      match ParseInt timeStr with
      | Some timestamp => Some timestamp
      | None => rfc3339 timeStr
      end
  end.

Record QueryOptions := mkQueryOptions {
  Start : string;
  End : string;
  Limit : Z
}.

(** The [start], [end] and [limit] query parameters [searchWithHTTP] sets
    ([q] apart); [None] is the "invalid start/end time" error. *)
Definition searchParams (rfc3339 : string -> option Z) (now : Z) (o : QueryOptions)
  : option (list (string * string)) :=
  let start :=
    if String.eqb (Start o) EmptyString then Some []
    else match parseTime rfc3339 now (Start o) with
         | Some t => Some [("start"%string, FormatInt t)]
         | None => None
         end in
  let end_ :=
    if (String.eqb (End o) EmptyString || String.eqb (End o) "now")%bool then Some []
    else match parseTime rfc3339 now (End o) with
         | Some t => Some [("end"%string, FormatInt t)]
         | None => None
         end in
  match start, end_ with
  | Some ps, Some pe =>
      Some (ps ++ pe ++ (if 0 <? Limit o then [("limit"%string, FormatInt (Limit o))] else []))
  | _, _ => None
  end.

End QueryClient.

(** ** Go numeric conversions *)

(** [int64(x)] / [time.Duration(x)] of a [float64] [x]: truncation toward
    zero. *)
Definition trunc (q : Q) : Z := Z.quot (Qnum q) (Zpos (Qden q)).

(** Two's-complement wrap-around of an int64 product or sum. *)
Definition wrap64 (z : Z) : Z := (z + 2 ^ 63) mod 2 ^ 64 - 2 ^ 63.

(** [time.Duration(x)] of a [float64] [x] that may lie outside the int64
    range: truncation toward zero in range; out of range the Go spec leaves
    the result to the implementation, and amd64 ([CVTTSD2SQ]) gives
    [math.MinInt64]. *)
Definition float64ToInt64 (q : Q) : Z :=
  let t := trunc q in
  if (- 2 ^ 63 <=? t) && (t <? 2 ^ 63) then t else - 2 ^ 63.

Definition Qltb (x y : Q) : bool := negb (Qle_bool y x).

(** [golang.org/x/time/rate.Limiter]: the limit and burst it is built with;
    token accounting happens inside [WaitN], which is a parameter below. *)
Record Limiter := mkLimiter { limit : Q; burst : Z }.
Definition NewLimiter (r : Q) (b : Z) : Limiter := mkLimiter r b.
Definition Burst (l : Limiter) : Z := burst l.

(** ** Query workload (pkg/tempo/config.go, pkg/tempo/workload.go) *)
Module Workload.

Record TimeBucketConfig := mkTimeBucket {
  Name : string;
  AgeStart : string;
  AgeEnd : string;
  BWeight : Q
}.

Record PlanEntry := mkPlanEntry {
  QueryName : string;
  BucketName : string;
  PWeight : Q
}.

Record QueryDefinition := mkQueryDefinition {
  QName : string;
  Query : string;
  QLimit : Z
}.

Record QueryWorkloadConfig := mkQueryWorkloadConfig {
  TargetQPS : Q;
  BurstMultiplier : Q;
  QPSMultiplier : Q;
  EnableBackoff : bool;
  MinBackoffMs : Z;
  MaxBackoffMs : Z;
  BackoffJitter : bool;
  TimeBuckets : list TimeBucketConfig;
  ExecutionPlan : list PlanEntry;
  TraceFetchProbability : Q;
  TimeWindowJitterMs : Z
}.

Definition DefaultQueryWorkloadConfig : QueryWorkloadConfig := {|
  TargetQPS := 10; BurstMultiplier := 2; QPSMultiplier := 1;
  EnableBackoff := true; MinBackoffMs := 200; MaxBackoffMs := 30000;
  BackoffJitter := true;
  TimeBuckets := [mkTimeBucket "recent" "0m" "1h" 1];
  ExecutionPlan := [mkPlanEntry "default" "recent" 1];
  TraceFetchProbability := 1 # 10; TimeWindowJitterMs := 0 |}.

(** The [QueryWorkload] fields that change between iterations. *)
Record WorkloadState := mkWorkloadState {
  rateLimiter : Limiter;
  backoffDuration : Z;
  testStartTime : Z;
  planIndex : Z
}.

(** [NewQueryWorkload]; [now] is [time.Now()]. *)
Definition NewQueryWorkload (config : QueryWorkloadConfig) (now : Z) : WorkloadState :=
  let perVUQPS := (TargetQPS config * QPSMultiplier config)%Q in
  let burstSize := trunc (perVUQPS * BurstMultiplier config) in
  let burstSize := if burstSize <? 1 then 1 else burstSize in
  {| rateLimiter := NewLimiter perVUQPS burstSize; backoffDuration := 0;
     testStartTime := now; planIndex := 0 |}.

(** The part of an [*http.Response] the workload reads: the status code
    and [Header.Get("Retry-After")] ([""] when the header is absent). *)
Record HTTPResponse := mkHTTPResponse { StatusCode : Z; RetryAfter : string }.

(** [HandleHTTPResponse]: the new [backoffDuration]. *)
Definition HandleHTTPResponse (config : QueryWorkloadConfig) (resp : HTTPResponse)
  (backoffDuration : Z) : Z :=
  if negb (EnableBackoff config) then backoffDuration else
  let maxD := wrap64 (MaxBackoffMs config * Millisecond) in
  let sc := StatusCode resp in
  if ((sc =? 429) || ((500 <=? sc) && (sc <? 600)))%bool then
    let exponential :=
      if backoffDuration =? 0 then wrap64 (MinBackoffMs config * Millisecond)
      else
        let d := trunc (inject_Z backoffDuration * (3 # 2)) in
        if maxD <? d then maxD else d in
    if negb (String.eqb (RetryAfter resp) EmptyString) then
      match Atoi (RetryAfter resp) with
      | Some seconds =>
          let d := wrap64 (seconds * Second) in
          if maxD <? d then maxD else d
      | None => exponential
      end
    else exponential
  else 0.

(** Backoff after each response of a sequence, from [d]. *)
Fixpoint backoff_trace (config : QueryWorkloadConfig) (d : Z) (resps : list HTTPResponse)
  : list Z :=
  match resps with
  | [] => []
  | r :: rs =>
      let d' := HandleHTTPResponse config r d in d' :: backoff_trace config d' rs
  end.

(** Package-level [rand.Intn]: panics when [n <= 0] ([None]), otherwise
    the draw [draw n], which lies in [[0, n)]. *)
Definition Intn (draw : Z -> Z) (n : Z) : option Z :=
  if n <=? 0 then None else Some (draw n).

Inductive BackoffOutcome :=
| NoDelay
| Sleep (delay : Z)
| Panic.

(** [applyBackoff]: the delay it waits for (until the context is done),
    or the panic of [rand.Intn].  [time.Duration(j) * time.Millisecond]
    and [delay += jitter] are int64 operations and wrap. *)
Definition applyBackoff (config : QueryWorkloadConfig) (draw : Z -> Z)
  (backoffDuration : Z) : BackoffOutcome :=
  if negb (EnableBackoff config) then NoDelay
  else if 0 <? backoffDuration then
    let delay := backoffDuration in
    if BackoffJitter config then
      match Intn draw (Z.quot (Z.quot delay Millisecond) 10) with
      | None => Panic
      | Some j => Sleep (wrap64 (delay + wrap64 (j * Millisecond)))
      end
    else Sleep delay
  else NoDelay.

(** [selectPlanEntry]; [f] is the [rand.Float64()] draw. *)
Definition coerceWeight (w : Q) : Q := if Qle_bool w 0 then 1 else w.

Fixpoint totalWeight_from (acc : Q) (plan : list PlanEntry) : Q :=
  match plan with
  | [] => acc
  | e :: rest => totalWeight_from (acc + coerceWeight (PWeight e)) rest
  end.

Definition totalWeight (plan : list PlanEntry) : Q := totalWeight_from 0 plan.

Fixpoint weightedPick (r currentWeight : Q) (i : nat) (plan : list PlanEntry)
  : option (nat * PlanEntry) :=
  match plan with
  | [] => None
  | e :: rest =>
      let cw := (currentWeight + coerceWeight (PWeight e))%Q in
      if Qle_bool r cw then Some (i, e) else weightedPick r cw (S i) rest
  end.

Inductive PlanChoice :=
| NoPlanEntry
| Cycled (e : PlanEntry)
| Weighted (i : nat) (e : PlanEntry)
| FirstFallback (e : PlanEntry).

Definition selectPlanEntry (plan : list PlanEntry) (planIndex : Z) (f : Q)
  : PlanChoice * Z :=
  match plan with
  | [] => (NoPlanEntry, planIndex)
  | e0 :: _ =>
      let total := totalWeight plan in
      if Qeq_bool total 0 then
        (Cycled (nth (Z.to_nat (planIndex mod Z.of_nat (length plan))) plan e0),
         planIndex + 1)
      else
        match weightedPick (f * total) 0 0 plan with
        | Some (i, e) => (Weighted i e, planIndex)
        | None => (FirstFallback e0, planIndex)
        end
  end.

(** [ParseTimeRanges]; [now] is its [time.Now()]. *)
Inductive TimeRange :=
| RangeError
| NotEligible
| Eligible (start end_ : Z).

Definition ParseTimeRanges (tb : TimeBucketConfig) (elapsed now : Z) : TimeRange :=
  match ParseDuration (AgeStart tb), ParseDuration (AgeEnd tb) with
  | Some ageStart, Some ageEnd =>
      if elapsed <? ageEnd then NotEligible
      else Eligible (now - ageEnd) (now - ageStart)
  | _, _ => RangeError
  end.

Definition defaultLimit (qd : QueryDefinition) : Z :=
  if QLimit qd =? 0 then 20 else QLimit qd.

(** The options [executeWithDefaultTimeRange] searches with. *)
Definition defaultTimeRangeOptions (qd : QueryDefinition) : QueryClient.QueryOptions :=
  QueryClient.mkQueryOptions "1h" "now" (defaultLimit qd).

(** The time-window jitter of [executeNext]; [f] is the [rand.Float64()]
    draw. *)
Definition windowOffset (config : QueryWorkloadConfig) (f : Q) : Z :=
  if 0 <? TimeWindowJitterMs config then
    trunc ((f * 2 - 1) * inject_Z (TimeWindowJitterMs config)) * Millisecond
  else 0.

(** The search options of [executeNext] once the plan entry's query
    definition [qd] and time bucket [tb] have been found.  [executeNext]
    reads the clock for [time.Since(testStartTime)] and [ParseTimeRanges]
    reads it again right after; both reads are [now] here.  [None] is the
    "failed to parse time bucket" error. *)
Definition stepSearchOptions (config : QueryWorkloadConfig) (st : WorkloadState)
  (qd : QueryDefinition) (tb : TimeBucketConfig) (now : Z) (f : Q)
  : option QueryClient.QueryOptions :=
  let elapsed := now - testStartTime st in
  match ParseTimeRanges tb elapsed now with
  | RangeError => None
  | NotEligible => Some (defaultTimeRangeOptions qd)
  | Eligible start end_ =>
      let offset := windowOffset config f in
      Some (QueryClient.mkQueryOptions (FormatInt (start + offset)) (FormatInt (end_ + offset))
              (defaultLimit qd))
  end.

End Workload.

(** ** Byte rate limiter (pkg/generator/ratelimit.go) *)
Module RateLimit.

Definition bytesPerMB : Q := 1048576.
Definition defaultBurstMultiplier : Q := 3 # 2.
Definition defaultTargetMBps : Q := 1.
Definition minBurstSize : Z := 1.

Record ByteRateLimiter := mkByteRateLimiter {
  targetBytesPerSec : Q;
  limiter : Limiter
}.

Definition calculateBurstSize (targetBytesPerSec burstMultiplier : Q) : Z :=
  let burstSize := trunc (targetBytesPerSec * burstMultiplier) in
  if burstSize <? minBurstSize then minBurstSize else burstSize.

Definition NewByteRateLimiter (targetMBps burstMultiplier : Q) : ByteRateLimiter :=
  let burstMultiplier := if Qle_bool burstMultiplier 0 then defaultBurstMultiplier else burstMultiplier in
  let targetMBps := if Qle_bool targetMBps 0 then defaultTargetMBps else targetMBps in
  let targetBytesPerSec := (targetMBps * bytesPerMB)%Q in
  let burstSize := calculateBurstSize targetBytesPerSec burstMultiplier in
  mkByteRateLimiter targetBytesPerSec (NewLimiter targetBytesPerSec burstSize).

Definition SetRate (r : ByteRateLimiter) (targetMBps : Q) : ByteRateLimiter :=
  if Qle_bool targetMBps 0 then r else
  let targetBytesPerSec := (targetMBps * bytesPerMB)%Q in
  let burstSize := calculateBurstSize targetBytesPerSec defaultBurstMultiplier in
  mkByteRateLimiter targetBytesPerSec (NewLimiter targetBytesPerSec burstSize).

Inductive WaitResult :=
| WaitOk
| WaitErr (e : string)
| WaitLoops.

Section Wait.

(** [limiter.WaitN(ctx, n)] of [golang.org/x/time/rate]: [None] for a nil
    error, and the limiter after the call (its tokens are consumed). *)
Variable Ctx : Type.
Variable WaitN : Ctx -> Z -> Limiter -> option string * Limiter.

(** The [for bytes > 0] loop; each iteration removes [min bytes burst]
    bytes, at least one since the burst is at least [minBurstSize], so
    [bytes] iterations suffice.  [WaitLoops] marks a run out of fuel. *)
Fixpoint wait_loop (fuel : nat) (ctx : Ctx) (bytes : Z) (r : ByteRateLimiter)
  : WaitResult * ByteRateLimiter :=
  if bytes <=? 0 then (WaitOk, r) else
  match fuel with
  | O => (WaitLoops, r)
  | S fuel' =>
      let lim := limiter r in
      let burstSize := Burst lim in
      let waitAmount := if burstSize <? bytes then burstSize else bytes in
      match WaitN ctx waitAmount lim with
      | (Some e, lim') => (WaitErr e, mkByteRateLimiter (targetBytesPerSec r) lim')
      | (None, lim') =>
          wait_loop fuel' ctx (bytes - waitAmount) (mkByteRateLimiter (targetBytesPerSec r) lim')
      end
  end.

Definition Wait (ctx : Ctx) (bytes : Z) (r : ByteRateLimiter) : WaitResult * ByteRateLimiter :=
  if bytes <=? 0 then (WaitOk, r) else wait_loop (Z.to_nat bytes) ctx bytes r.

End Wait.

End RateLimit.

(** ** Tree trace generator (pkg/generator, [GenerateTraceFromTree])

    Go's [*rand.Rand] is the class [RandSource] over an explicit state.
    The helpers that read the random source and the cardinality manager
    ([NewTreeTraceContext], [GetPropagatedTags],
    [generateSemanticAttributes], [generateResourceAttributes]) are the
    fields of [Helpers]: functions of their arguments and of the source's
    state (the manager's pools are reset at every seeded call).  Spans live
    in an arena addressed by index, so the parent span that a child's
    error promotes is the same object as the one recorded in
    [spansByService], as with the source's [*tracev1.Span] pointers.
    Times are nanoseconds since the epoch as [Z]; float64 values are exact
    rationals. *)
Module TreeGen.

Record DurationConfig := mkDurationConfig { BaseMs : Z; VarianceMs : Z }.
Record CountConfig := mkCountConfig { Min : Z; Max : Z }.

(** A Go map ([Tags]) is the list of its entries in the order the run
    iterates them; a [nil] [*TraceTreeNode] is [None]. *)
Inductive TraceTreeNode :=
| mkTraceTreeNode (Service Operation SpanKind : string)
    (Tags : list (string * string)) (Duration : DurationConfig)
    (ErrorRate : Q) (ErrorPropagates : bool) (Children : list TraceTreeEdge)
with TraceTreeEdge :=
| mkTraceTreeEdge (Weight : Q) (Parallel : bool) (Count : CountConfig)
    (Node : option TraceTreeNode).

Definition Service (n : TraceTreeNode) : string :=
  match n with mkTraceTreeNode s _ _ _ _ _ _ _ => s end.
Definition Operation (n : TraceTreeNode) : string :=
  match n with mkTraceTreeNode _ o _ _ _ _ _ _ => o end.
Definition SpanKind (n : TraceTreeNode) : string :=
  match n with mkTraceTreeNode _ _ k _ _ _ _ _ => k end.
Definition Tags (n : TraceTreeNode) : list (string * string) :=
  match n with mkTraceTreeNode _ _ _ t _ _ _ _ => t end.
Definition Duration (n : TraceTreeNode) : DurationConfig :=
  match n with mkTraceTreeNode _ _ _ _ d _ _ _ => d end.
Definition ErrorRate (n : TraceTreeNode) : Q :=
  match n with mkTraceTreeNode _ _ _ _ _ r _ _ => r end.
Definition ErrorPropagates (n : TraceTreeNode) : bool :=
  match n with mkTraceTreeNode _ _ _ _ _ _ p _ => p end.
Definition Children (n : TraceTreeNode) : list TraceTreeEdge :=
  match n with mkTraceTreeNode _ _ _ _ _ _ _ c => c end.

Definition Weight (e : TraceTreeEdge) : Q :=
  match e with mkTraceTreeEdge w _ _ _ => w end.
Definition Parallel (e : TraceTreeEdge) : bool :=
  match e with mkTraceTreeEdge _ p _ _ => p end.
Definition Count (e : TraceTreeEdge) : CountConfig :=
  match e with mkTraceTreeEdge _ _ c _ => c end.
Definition Node (e : TraceTreeEdge) : option TraceTreeNode :=
  match e with mkTraceTreeEdge _ _ _ n => n end.
Definition setWeight (w : Q) (e : TraceTreeEdge) : TraceTreeEdge :=
  match e with mkTraceTreeEdge _ p c n => mkTraceTreeEdge w p c n end.

(** Height of a tree: the recursion depth of [generateSpansFromNode]. *)
Fixpoint node_height (n : TraceTreeNode) : nat :=
  match n with
  | mkTraceTreeNode _ _ _ _ _ _ _ kids =>
      S ((fix edges_height (es : list TraceTreeEdge) : nat :=
            match es with
            | [] => O
            | mkTraceTreeEdge _ _ _ (Some c) :: rest =>
                Nat.max (node_height c) (edges_height rest)
            | mkTraceTreeEdge _ _ _ None :: rest => edges_height rest
            end) kids)
  end.

Record TreeContext := mkTreeContext {
  Propagate : list string;
  Cardinality : list (string * Z) }.

Record TreeDefaults := mkTreeDefaults {
  UseSemanticAttributes : bool;
  EnableTags : bool;
  TagDensity : Q }.

(** [TraceTreeConfig]; its [Context] field is [Context_]. *)
Record TraceTreeConfig := mkTraceTreeConfig {
  Seed : Z;
  Context_ : TreeContext;
  Defaults : TreeDefaults;
  Root : option TraceTreeNode }.

(** OTLP protobuf values. *)
Inductive Span_SpanKind :=
| SPAN_KIND_SERVER | SPAN_KIND_CLIENT | SPAN_KIND_INTERNAL
| SPAN_KIND_PRODUCER | SPAN_KIND_CONSUMER.

Inductive Status_StatusCode := STATUS_CODE_OK | STATUS_CODE_ERROR.

Record Status := mkStatus { Code : Status_StatusCode; Message : string }.

Inductive AnyValue :=
| StringValue (s : string)
| IntValue (z : Z)
| BoolValue (b : bool)
| DoubleValue (q : Q).

Definition KeyValue := (string * AnyValue)%type.

Record Span := mkSpan {
  TraceId : list Z;
  SpanId : list Z;
  ParentSpanId : list Z;
  Name : string;
  Kind : Span_SpanKind;
  StartTimeUnixNano : Z;
  EndTimeUnixNano : Z;
  Status_ : Status;
  Attributes : list KeyValue }.

Record ResourceSpans := mkResourceSpans {
  ResourceAttributes : list (string * string);
  ScopeSpans : list Span }.

(** [rand.New(rand.NewSource(seed))] and the methods of [*rand.Rand] the
    generator calls. *)
Class RandSource (St : Type) := {
  NewSource : Z -> St;
  Float64 : St -> Q * St;
  Intn : Z -> St -> Z * St;
  NormFloat64 : St -> Q * St }.

Record Helpers (St TraceCtx : Type) := mkHelpers {
  NewTreeTraceContext : TreeContext -> St -> TraceCtx * St;
  GetPropagatedTags : TraceCtx -> Q -> St -> list KeyValue * St;
  generateSemanticAttributes : Span_SpanKind -> string -> St -> list KeyValue * St;
  generateResourceAttributes : string -> St -> list (string * string) * St }.

Arguments NewTreeTraceContext {St TraceCtx}.
Arguments GetPropagatedTags {St TraceCtx}.
Arguments generateSemanticAttributes {St TraceCtx}.
Arguments generateResourceAttributes {St TraceCtx}.

Definition parseSpanKind (kindStr : string) : Span_SpanKind :=
  if String.eqb kindStr "server" then SPAN_KIND_SERVER
  else if String.eqb kindStr "client" then SPAN_KIND_CLIENT
  else if String.eqb kindStr "internal" then SPAN_KIND_INTERNAL
  else if String.eqb kindStr "producer" then SPAN_KIND_PRODUCER
  else if String.eqb kindStr "consumer" then SPAN_KIND_CONSUMER
  else SPAN_KIND_SERVER.

Definition errorMessages : list string :=
  ["connection timeout"; "database connection failed"; "invalid request";
   "authentication failed"; "rate limit exceeded"; "service unavailable";
   "internal server error"; "not found"; "permission denied"; "request timeout"]%string.

(** [NormalizeWeights].  The source writes the result back into
    [node.Children]; here it is passed to [SelectChildren] and the
    configuration is left as given, so a later call sees the original
    weights (with exact rationals, normalizing twice gives the same
    selection probabilities). *)
Definition NormalizeWeights (edges : list TraceTreeEdge) : list TraceTreeEdge :=
  let defined := List.length (filter (fun e => Qltb 0 (Weight e)) edges) in
  let total := fold_left (fun acc e => if Qltb 0 (Weight e) then (acc + Weight e)%Q else acc)
                 edges 0%Q in
  if Nat.eqb defined 0 then
    let equal := (1 / inject_Z (Z.of_nat (List.length edges)))%Q in
    map (setWeight equal) edges
  else
    map (fun e => if Qltb 0 (Weight e) then setWeight (Weight e / total)%Q e else e) edges.

Definition filterParallel (edges : list TraceTreeEdge) (parallel : bool) : list TraceTreeEdge :=
  filter (fun e => Bool.eqb (Parallel e) parallel) edges.

Section Generator.
Context {St : Type} `{RandSource St}.

(** The generator's state: the random source, the span arena and
    [spansByService] (service name to span indices, keys in insertion
    order). *)
Record GenState := mkGenState {
  rng : St;
  spans : list Span;
  spansByService : list (string * list nat) }.

Definition M (A : Type) : Type := GenState -> A * GenState.

Definition ret {A} (a : A) : M A := fun s => (a, s).

Definition bind {A B} (m : M A) (k : A -> M B) : M B :=
  fun s => let (a, s') := m s in k a s'.

Local Notation "x <- m ;; k" := (bind m (fun x => k))
  (at level 61, m at next level, right associativity).

Definition with_rng (r : St) (s : GenState) : GenState :=
  mkGenState r (spans s) (spansByService s).

(** A call that only reads and advances the random source. *)
Definition rlift {A} (f : St -> A * St) : M A :=
  fun s => let (a, r) := f (rng s) in (a, with_rng r s).

Definition rFloat64 : M Q := rlift Float64.
Definition rIntn (n : Z) : M Z := rlift (Intn n).
Definition rNormFloat64 : M Q := rlift NormFloat64.

Definition getSpan (i : nat) : M (option Span) :=
  fun s => (nth_error (spans s) i, s).

Fixpoint list_set {A} (l : list A) (i : nat) (x : A) : list A :=
  match l, i with
  | [], _ => []
  | _ :: rest, O => x :: rest
  | y :: rest, S i' => y :: list_set rest i' x
  end.

Definition setSpan (i : nat) (sp : Span) : M unit :=
  fun s => (tt, mkGenState (rng s) (list_set (spans s) i sp) (spansByService s)).

Fixpoint addToService (svc : string) (i : nat) (m : list (string * list nat))
  : list (string * list nat) :=
  match m with
  | [] => [(svc, [i])]
  | (k, l) :: rest =>
      if String.eqb k svc then (k, l ++ [i]) :: rest else (k, l) :: addToService svc i rest
  end.

(** [spansByService[svc] = append(spansByService[svc], span)]. *)
Definition appendSpan (svc : string) (sp : Span) : M nat :=
  fun s =>
    let i := List.length (spans s) in
    (i, mkGenState (rng s) (spans s ++ [sp]) (addToService svc i (spansByService s))).

Fixpoint randomBytes (n : nat) : M (list Z) :=
  match n with
  | O => ret []
  | S n' => b <- rIntn 256 ;; rest <- randomBytes n' ;; ret (b :: rest)
  end.

(** [calculateDurationFromConfig]: [base + NormFloat64() * variance]
    milliseconds, at least 1, converted by [time.Duration(duration)] and
    multiplied by [time.Millisecond] in int64. *)
Definition calculateDurationFromConfig (dur : DurationConfig) : M Z :=
  let base := if BaseMs dur <=? 0 then 50 else BaseMs dur in
  let variance := if VarianceMs dur <? 0 then 30 else VarianceMs dur in
  n <- rNormFloat64 ;;
  let duration := (inject_Z base + n * inject_Z variance)%Q in
  let duration := if Qltb duration 1 then 1%Q else duration in
  ret (wrap64 (float64ToInt64 duration * Millisecond)).

Definition getRandomErrorMessage : M string :=
  i <- rIntn (Z.of_nat (List.length errorMessages)) ;;
  ret (nth (Z.to_nat i) errorMessages ""%string).

Fixpoint SelectChildren (edges : list TraceTreeEdge) : M (list TraceTreeEdge) :=
  match edges with
  | [] => ret []
  | edge :: rest =>
      f <- rFloat64 ;;
      if Qltb f (Weight edge) then
        count <- (if 0 <? Max (Count edge) then
                    if Min (Count edge) <? Max (Count edge) then
                      k <- rIntn (Max (Count edge) - Min (Count edge) + 1) ;;
                      ret (Min (Count edge) + k)
                    else ret (Min (Count edge))
                  else ret 1) ;;
        selected <- SelectChildren rest ;;
        ret (repeat edge (Z.to_nat count) ++ selected)
      else SelectChildren rest
  end.

(** The start-time block of [generateSpansFromNode] for a child: a delay
    of up to 30% of the parent's duration, then the clamp that keeps the
    child before [parentEnd - 10ms], floored at 1 ms. *)
Definition childTiming (parentStart parentEnd duration : Z) : M (Z * Z) :=
  f <- rFloat64 ;;
  let parentDuration := parentEnd - parentStart in
  let delay := trunc (f * (3 # 10) * inject_Z parentDuration)%Q in
  let startTime := parentStart + delay in
  let maxEnd := parentEnd - Millisecond * 10 in
  ret (startTime,
       if maxEnd <? startTime + duration then
         (if maxEnd - startTime <? Millisecond then Millisecond else maxEnd - startTime)
       else duration).

(** The root starts at [parentStartTime]; a child's start is computed from
    its parent span, read back from the arena. *)
Definition startAndDuration (parentSpan : option nat) (parentStartTime duration : Z)
  : M (Z * Z) :=
  match parentSpan with
  | None => ret (parentStartTime, duration)
  | Some p =>
      ps <- getSpan p ;;
      match ps with
      | Some ps => childTiming (StartTimeUnixNano ps) (EndTimeUnixNano ps) duration
      | None => ret (parentStartTime, duration)
      end
  end.

Definition parentSpanId (parentSpan : option nat) : M (list Z) :=
  match parentSpan with
  | None => ret []
  | Some p => ps <- getSpan p ;; ret (match ps with Some ps => SpanId ps | None => [] end)
  end.

Definition is_error (st : Status) : bool :=
  match Code st with STATUS_CODE_ERROR => true | STATUS_CODE_OK => false end.

(** [span.Status.Code = ERROR], and the message if the parent had none. *)
Definition markParentError (span : nat) : M unit :=
  ps <- getSpan span ;;
  match ps with
  | Some ps =>
      setSpan span
        (mkSpan (TraceId ps) (SpanId ps) (ParentSpanId ps) (Name ps) (Kind ps)
           (StartTimeUnixNano ps) (EndTimeUnixNano ps)
           (mkStatus STATUS_CODE_ERROR
              (if String.eqb (Message (Status_ ps)) "" then "child span failed"
               else Message (Status_ ps)))
           (Attributes ps))
  | None => ret tt
  end.

(** The loop over the sequential children: each child is generated with
    the current time, which then advances to the child's end. *)
Fixpoint sequential_loop (g : option TraceTreeNode -> option nat -> Z -> M (option nat))
  (span : nat) (edges : list TraceTreeEdge) (currentTime : Z) : M Z :=
  match edges with
  | [] => ret currentTime
  | childEdge :: rest =>
      childSpan <- g (Node childEdge) (Some span) currentTime ;;
      currentTime' <-
        match childSpan with
        | None => ret currentTime
        | Some c =>
            cs <- getSpan c ;;
            ret (match cs with
                 | Some cs => if currentTime <? EndTimeUnixNano cs then EndTimeUnixNano cs
                              else currentTime
                 | None => currentTime
                 end)
        end ;;
      sequential_loop g span rest currentTime'
  end.

(** The loop over the parallel children, with the error propagation. *)
Fixpoint parallel_loop (g : option TraceTreeNode -> option nat -> Z -> M (option nat))
  (span : nat) (endTime : Z) (edges : list TraceTreeEdge) (currentTime : Z) : M unit :=
  match edges with
  | [] => ret tt
  | childEdge :: rest =>
      let availableTime := endTime - currentTime in
      _ <- (if 0 <? availableTime then
              f <- rFloat64 ;;
              let delay := trunc (f * (1 # 5) * inject_Z availableTime)%Q in
              childSpan <- g (Node childEdge) (Some span) (currentTime + delay) ;;
              match childSpan with
              | None => ret tt
              | Some c =>
                  cs <- getSpan c ;;
                  match cs, Node childEdge with
                  | Some cs, Some cn =>
                      if is_error (Status_ cs) && ErrorPropagates cn then markParentError span
                      else ret tt
                  | _, _ => ret tt
                  end
              end
            else ret tt) ;;
      parallel_loop g span endTime rest currentTime
  end.

Context {TraceCtx : Type}.
Variable helpers : Helpers St TraceCtx.
Variable defaults : TreeDefaults.
Variable traceCtx : TraceCtx.
Variable traceID : list Z.

(** [generateSpansFromNode]; [fuel] bounds the recursion depth (the
    tree's height suffices).  The result is the index of the new span. *)
Fixpoint generateSpansFromNode (fuel : nat) (node : option TraceTreeNode)
  (parentSpan : option nat) (parentStartTime : Z) : M (option nat) :=
  match fuel, node with
  | O, _ => ret None
  | _, None => ret None
  | S fuel', Some nd =>
      duration <- calculateDurationFromConfig (Duration nd) ;;
      timing <- startAndDuration parentSpan parentStartTime duration ;;
      let startTime := fst timing in
      let duration := snd timing in
      let endTime := startTime + duration in
      let spanKind := parseSpanKind (SpanKind nd) in
      e <- rFloat64 ;;
      status <- (if Qltb e (ErrorRate nd) then
                   m <- getRandomErrorMessage ;; ret (mkStatus STATUS_CODE_ERROR m)
                 else ret (mkStatus STATUS_CODE_OK "")) ;;
      spanID <- randomBytes 8 ;;
      parentSpanID <- parentSpanId parentSpan ;;
      semanticAttrs <- (if UseSemanticAttributes defaults then
                          rlift (generateSemanticAttributes helpers spanKind (Service nd))
                        else ret []) ;;
      tagAttrs <- (if EnableTags defaults then
                     rlift (GetPropagatedTags helpers traceCtx (TagDensity defaults))
                   else ret []) ;;
      let attrs := ("service.name"%string, StringValue (Service nd))
                     :: map (fun kv => (fst kv, StringValue (snd kv))) (Tags nd)
                     ++ semanticAttrs ++ tagAttrs in
      span <- appendSpan (Service nd)
                (mkSpan traceID spanID parentSpanID (Operation nd) spanKind
                   startTime endTime status attrs) ;;
      match Children nd with
      | [] => ret (Some span)
      | kids =>
          selectedChildren <- SelectChildren (NormalizeWeights kids) ;;
          let parallel := filterParallel selectedChildren true in
          let sequential := filterParallel selectedChildren false in
          currentTime <- sequential_loop (generateSpansFromNode fuel') span sequential startTime ;;
          _ <- parallel_loop (generateSpansFromNode fuel') span endTime parallel currentTime ;;
          ret (Some span)
      end
  end.

End Generator.

Arguments GenState St : clear implicits.

Fixpoint assoc_set (k v : string) (m : list (string * string)) : list (string * string) :=
  match m with
  | [] => [(k, v)]
  | (k', v') :: rest =>
      if String.eqb k' k then (k, v) :: rest else (k', v') :: assoc_set k v rest
  end.

Section Trace.
Context {St : Type} `{RandSource St} {TraceCtx : Type}.
Variable helpers : Helpers St TraceCtx.

(** The spans recorded for [svc], in the arena's final state. *)
Definition spansOf (gs : GenState St) (svc : string) : list Span :=
  match find (fun kv => String.eqb (fst kv) svc) (spansByService gs) with
  | Some (_, idxs) =>
      flat_map (fun i => match nth_error (spans gs) i with Some sp => [sp] | None => [] end) idxs
  | None => []
  end.

(** The loop over [spansByService]: one [ResourceSpans] per service. *)
Fixpoint resourceSpans_loop (gs : GenState St) (services : list string) (r : St)
  : list ResourceSpans :=
  match services with
  | [] => []
  | svc :: rest =>
      let (resourceAttrs, r') := generateResourceAttributes helpers svc r in
      mkResourceSpans (assoc_set "service.name" svc resourceAttrs) (spansOf gs svc)
        :: resourceSpans_loop gs rest r'
  end.

(** [GenerateTraceFromTree].  [now] is the wall clock ([time.Now()]),
    [cryptoTraceID] what [crypto/rand] yields for an unseeded call, and
    [mapOrder] the order in which the run iterates the keys of the Go map
    [spansByService] (given in insertion order). *)
Definition GenerateTraceFromTree (config : TraceTreeConfig) (now : Z)
  (cryptoTraceID : list Z) (mapOrder : list string -> list string) : list ResourceSpans :=
  let seeded := negb (Seed config =? 0) in
  let r0 := NewSource (if seeded then Seed config else now) in
  let (traceCtx, r1) := NewTreeTraceContext helpers (Context_ config) r0 in
  let (traceID, g2) := if seeded then randomBytes 16 (mkGenState r1 [] [])
                       else (cryptoTraceID, mkGenState r1 [] []) in
  let (k, g3) := rIntn 3600 g2 in
  let traceStartTime := now - k * Second in
  let fuel := match Root config with Some n => node_height n | None => O end in
  let (_, gs) := generateSpansFromNode helpers (Defaults config) traceCtx traceID fuel
                   (Root config) None traceStartTime g3 in
  resourceSpans_loop gs (mapOrder (map fst (spansByService gs))) (rng gs).

End Trace.

End TreeGen.

(** ** Moving a trace in time *)
Module TreeShift.
Import TreeGen.

Section Shift.
Variable d : Z.

(** A span with both timestamps moved by [d] nanoseconds. *)
Definition shiftSpan (sp : Span) : Span :=
  mkSpan (TraceId sp) (SpanId sp) (ParentSpanId sp) (Name sp) (Kind sp)
    (StartTimeUnixNano sp + d) (EndTimeUnixNano sp + d) (Status_ sp) (Attributes sp).

Definition shiftResourceSpans (r : ResourceSpans) : ResourceSpans :=
  mkResourceSpans (ResourceAttributes r) (map shiftSpan (ScopeSpans r)).

Context {St : Type}.

Definition shiftState (s : GenState St) : GenState St :=
  mkGenState (rng s) (map shiftSpan (spans s)) (spansByService s).

(** [m2] run on the shifted state does what [m1] does on the original,
    with its result mapped by [f] and the arena shifted. *)
Definition sim {A B} (f : A -> B) (m1 : M A) (m2 : M B) : Prop :=
  forall s, m2 (shiftState s) = (f (fst (m1 s)), shiftState (snd (m1 s))).

End Shift.
End TreeShift.

(** ** Concrete inputs for the workload facts *)
Module Scenarios.
Import Workload RateLimit.

Definition T0 : Z := 1760745600000000000.

Definition resp429 : HTTPResponse := mkHTTPResponse 429 "".

Definition bucket_1h_6h : TimeBucketConfig := mkTimeBucket "old" "1h" "6h" 1.

Definition cfg_qps3 : QueryWorkloadConfig :=
  {| TargetQPS := 3; BurstMultiplier := 3 # 2; QPSMultiplier := 1;
     EnableBackoff := true; MinBackoffMs := 200; MaxBackoffMs := 30000;
     BackoffJitter := true; TimeBuckets := TimeBuckets DefaultQueryWorkloadConfig;
     ExecutionPlan := ExecutionPlan DefaultQueryWorkloadConfig;
     TraceFetchProbability := 1 # 10; TimeWindowJitterMs := 0 |}.

Definition byteLimiter_1mbps : ByteRateLimiter := NewByteRateLimiter 1 (3 # 2).

End Scenarios.

(** ** Concrete inputs for the tree generator: a 64-bit linear congruential
    source and helpers that draw from it *)
Module TreeScenarios.
Import TreeGen Scenarios.

Definition lcg_next (s : Z) : Z :=
  (s * 6364136223846793005 + 1442695040888963407) mod 2 ^ 64.

#[export] Instance LCG : RandSource Z := {
  NewSource := fun seed => seed mod 2 ^ 64;
  Float64 := fun s => let s' := lcg_next s in (Z.shiftr s' 11 # 9007199254740992, s');
  Intn := fun n s => let s' := lcg_next s in (Z.shiftr s' 33 mod n, s');
  NormFloat64 := fun s => let s' := lcg_next s in ((Z.shiftr s' 11 mod 4096 - 2048) # 1024, s') }.

Definition demoHelpers : Helpers Z unit := {|
  NewTreeTraceContext := fun _ s => (tt, s);
  GetPropagatedTags := fun _ _ s => let (k, s') := Intn 100 s in
                         ([("tenant.id"%string, StringValue (FormatInt k))], s');
  generateSemanticAttributes := fun _ svc s => ([("peer.service"%string, StringValue svc)], s);
  generateResourceAttributes := fun svc s => ([("host.name"%string, svc)], s) |}.

Definition leaf (svc op : string) (baseMs varianceMs : Z) (errorRate : Q) (prop : bool) :=
  mkTraceTreeNode svc op "server" [] (mkDurationConfig baseMs varianceMs) errorRate prop [].

Definition cfgOf (seed : Z) (root : TraceTreeNode) : TraceTreeConfig :=
  mkTraceTreeConfig seed (mkTreeContext [] []) (mkTreeDefaults true true 1) (Some root).

Definition shortParentTree : TraceTreeNode :=
  mkTraceTreeNode "api" "GET /" "server" [] (mkDurationConfig 1 0) 0 false
    [mkTraceTreeEdge 1 false (mkCountConfig 0 0) (Some (leaf "db" "query" 25 0 0 false))].

Definition seqErrorTree : TraceTreeNode :=
  mkTraceTreeNode "api" "GET /" "server" [] (mkDurationConfig 100 0) 0 false
    [mkTraceTreeEdge 1 false (mkCountConfig 0 0) (Some (leaf "db" "query" 20 0 1 true))].

Definition bigTree : TraceTreeNode :=
  mkTraceTreeNode "api" "GET /" "server" [("env","prod")]%string (mkDurationConfig 100 20) (1#10) false
    [mkTraceTreeEdge 0 false (mkCountConfig 1 3) (Some (leaf "db" "query" 20 5 (1#2) true));
     mkTraceTreeEdge 0 true (mkCountConfig 0 0) (Some (leaf "cache" "get" 5 2 (1#2) true))].

Definition cfg_tree : TraceTreeConfig := cfgOf 42 bigTree.

Definition T0state : GenState Z := mkGenState 42 [] [].

Definition parErrorTree : TraceTreeNode :=
  mkTraceTreeNode "api" "GET /" "server" [] (mkDurationConfig 100 0) 0 false
    [mkTraceTreeEdge 1 true (mkCountConfig 0 0) (Some (leaf "db" "query" 20 0 1 true))].

End TreeScenarios.

(** ** Invariants of the tree generator's span arena *)
Module TreeInv.
Import TreeGen.

Section Inv.
Context {St : Type} `{RandSource St}.

(** What a span keeps when [markParentError] rewrites it: all but the
    status. *)
Definition skel (sp : Span) :=
  (TraceId sp, SpanId sp, ParentSpanId sp, Name sp, Kind sp,
   StartTimeUnixNano sp, EndTimeUnixNano sp, Attributes sp).

Definition service_attr (k : string) : option KeyValue :=
  Some ("service.name"%string, StringValue k).

Definition span_ok (traceID : list Z) (sp : Span) : Prop :=
  TraceId sp = traceID /\ length (SpanId sp) = 8%nat.

Definition parent_ok (l : list Span) (sp : Span) : Prop :=
  ParentSpanId sp = [] \/
  exists j pp, nth_error l j = Some pp /\ SpanId pp = ParentSpanId sp.

Definition find_service (k : string) (m : list (string * list nat))
  : option (string * list nat) :=
  find (fun kv => String.eqb (fst kv) k) m.

(** The arena invariant: every span is well formed and its parent id
    names a span of the arena; every index is listed under a service,
    and every listed index is a span of that service. *)
Definition Inv (traceID : list Z) (s : GenState St) : Prop :=
  (forall i sp, nth_error (spans s) i = Some sp ->
     span_ok traceID sp /\ parent_ok (spans s) sp) /\
  (forall i, (i < length (spans s))%nat ->
     exists k idxs, find_service k (spansByService s) = Some (k, idxs) /\ In i idxs) /\
  (forall k idxs i, In (k, idxs) (spansByService s) -> In i idxs ->
     exists sp, nth_error (spans s) i = Some sp /\ hd_error (Attributes sp) = service_attr k).

(** [s'] extends [s]: every span of [s] is still at its index, with at
    most its status changed. *)
Definition Ext (s s' : GenState St) : Prop :=
  forall i sp, nth_error (spans s) i = Some sp ->
    exists sp', nth_error (spans s') i = Some sp' /\ skel sp' = skel sp.

(** A computation that only draws from the random source. *)
Definition rng_only {A} (m : @M St A) : Prop :=
  forall s, spans (snd (m s)) = spans s /\ spansByService (snd (m s)) = spansByService s.

Definition GenPost (traceID : list Z) (s0 : GenState St) (r : option nat * GenState St) : Prop :=
  Inv traceID (snd r) /\ Ext s0 (snd r) /\
  (forall i, fst r = Some i -> (i < length (spans (snd r)))%nat).

Definition LoopPost {A} (traceID : list Z) (s0 : GenState St) (r : A * GenState St) : Prop :=
  Inv traceID (snd r) /\ Ext s0 (snd r).

End Inv.
End TreeInv.

(** ** Edge weights and counts *)
Module TreeProps.
Import TreeGen.
(** Sum of the positive edge weights. *)
Definition posWeightSum (edges : list TraceTreeEdge) : Q :=
  fold_right (fun e acc => if Qltb 0 (Weight e) then (Weight e + acc)%Q else acc) 0%Q edges.

(** The most copies [SelectChildren] makes of one edge. *)
Definition maxCopies (e : TraceTreeEdge) : nat :=
  if 0 <? Max (Count e) then Z.to_nat (Z.max (Min (Count e)) (Max (Count e))) else 1%nat.
End TreeProps.

Module EdgeScenarios.
Import TreeGen TreeScenarios.
Definition demoEdges : list TraceTreeEdge :=
  [mkTraceTreeEdge 3 false (mkCountConfig 1 3) (Some (leaf "db" "query" 20 5 0 false));
   mkTraceTreeEdge 0 true (mkCountConfig 0 0) (Some (leaf "cache" "get" 5 2 0 false));
   mkTraceTreeEdge (-1) false (mkCountConfig 2 2) None].
End EdgeScenarios.

(** ** [executeNext] and its callees (pkg/tempo/workload.go, query.go) *)
Module WorkloadExec.
Import Workload QueryClient.

(** [getTimeBucket]: the first bucket with the name; [None] is the
    "time bucket not found" error. *)
Definition getTimeBucket (config : QueryWorkloadConfig) (name : string)
  : option TimeBucketConfig :=
  find (fun tb => String.eqb (Workload.Name tb) name) (TimeBuckets config).

(** The entry [selectPlanEntry] returns; [nil] is [None]. *)
Definition planEntryOf (c : PlanChoice) : option PlanEntry :=
  match c with
  | NoPlanEntry => None
  | Cycled e | Weighted _ e | FirstFallback e => Some e
  end.

(** What [c.client.Do(req)] gives: a transport error (also standing for a
    failed [http.NewRequestWithContext]), or a response with its status
    code, [Retry-After] header and the outcome of decoding its body (the
    trace ids of [SearchResponse.Traces], or a decode error). *)
Inductive DoResult :=
| DoErr (e : string)
| DoResp (statusCode : Z) (retryAfter : string) (body : option (list string)).

(** The three results of [searchWithHTTP]: [*SearchResponse] (its trace
    ids), [*http.Response] and [error], [None] for [nil]. *)
Record SearchCall := mkSearchCall {
  sResult : option (list string);
  sHTTP : option HTTPResponse;
  sErr : option string }.

Section Client.
(** [time.Parse(time.RFC3339, _)], [time.Now()] and [c.client.Do] on the
    request for query [q] with the [start]/[end]/[limit] parameters. *)
Variable rfc3339 : string -> option Z.
Variable now : Z.
Variable do_ : string -> list (string * string) -> DoResult.

Definition searchWithHTTP (query : string) (options : QueryOptions) : SearchCall :=
  match searchParams rfc3339 now options with
  | None => mkSearchCall None None (Some "invalid time"%string)
  | Some params =>
      match do_ query params with
      | DoErr e => mkSearchCall None None (Some ("failed to send request: " ++ e)%string)
      | DoResp sc ra body =>
          let resp := mkHTTPResponse sc ra in
          if ((sc <? 200) || (300 <=? sc))%bool then
            mkSearchCall None (Some resp) (Some "HTTP error"%string)
          else
            match body with
            | Some traces => mkSearchCall (Some traces) (Some resp) None
            | None => mkSearchCall None (Some resp) (Some "failed to decode response"%string)
            end
      end
  end.
End Client.

(** The backoff update after a search: [HandleHTTPResponse] when there is
    a response, 0 on an error without response and on success. *)
Definition backoffAfterSearch (config : QueryWorkloadConfig) (call : SearchCall)
  (backoffDuration : Z) : Z :=
  match sHTTP call with
  | Some resp => HandleHTTPResponse config resp backoffDuration
  | None =>
      match sErr call with
      | Some _ => 0
      | None => 0
      end
  end.

Definition setBackoff (st : WorkloadState) (d : Z) : WorkloadState :=
  mkWorkloadState (rateLimiter st) d (testStartTime st) (planIndex st).

Definition setPlanIndex (st : WorkloadState) (i : Z) : WorkloadState :=
  mkWorkloadState (rateLimiter st) (backoffDuration st) (testStartTime st) i.

Inductive ExecError :=
| WaitFailed (e : string)
| NoEligiblePlanEntry
| QueryNotFound (name : string)
| BucketNotFound (name : string)
| BadTimeBucket
| SearchErr (e : string).

(** [executeNext]'s return: [(result, err)], or the panic of
    [applyBackoff]. *)
Inductive ExecOutcome :=
| Panicked
| Returned (result : option (list string)) (err : option ExecError).

Definition searchOutcome (call : SearchCall) : ExecOutcome :=
  Returned (sResult call) (option_map SearchErr (sErr call)).

Section Exec.
Variable config : QueryWorkloadConfig.
(** [qw.queries] (a Go map, looked up by key) and
    [qw.queryClient.searchWithHTTP]. *)
Variable queries : string -> option QueryDefinition.
Variable search : string -> QueryOptions -> SearchCall.

Definition executeWithDefaultTimeRange (qd : QueryDefinition) (st : WorkloadState)
  : ExecOutcome * WorkloadState :=
  let options := defaultTimeRangeOptions qd in
  let call := search (Query qd) options in
  (searchOutcome call, setBackoff st (backoffAfterSearch config call (backoffDuration st))).

(** [executeNext].  [waitErr] is the result of [qw.rateLimiter.Wait(ctx)];
    [draw], [fPlan] and [fJitter] are the package-level [rand] draws of
    [applyBackoff], [selectPlanEntry] and the window jitter; [now] is the
    clock after the backoff sleep. *)
Definition executeNext (waitErr : option string) (draw : Z -> Z) (fPlan fJitter : Q)
  (now : Z) (st : WorkloadState) : ExecOutcome * WorkloadState :=
  match waitErr with
  | Some e => (Returned None (Some (WaitFailed e)), st)
  | None =>
      match applyBackoff config draw (backoffDuration st) with
      | Panic => (Panicked, st)
      | _ =>
          let (choice, pi) := selectPlanEntry (ExecutionPlan config) (planIndex st) fPlan in
          let st := setPlanIndex st pi in
          match planEntryOf choice with
          | None => (Returned None (Some NoEligiblePlanEntry), st)
          | Some pe =>
              match queries (QueryName pe) with
              | None => (Returned None (Some (QueryNotFound (QueryName pe))), st)
              | Some qd =>
                  match getTimeBucket config (BucketName pe) with
                  | None => (Returned None (Some (BucketNotFound (BucketName pe))), st)
                  | Some tb =>
                      match ParseTimeRanges tb (now - testStartTime st) now with
                      | RangeError => (Returned None (Some BadTimeBucket), st)
                      | NotEligible => executeWithDefaultTimeRange qd st
                      | Eligible start end_ =>
                          let offset := windowOffset config fJitter in
                          let options :=
                            mkQueryOptions (FormatInt (start + offset))
                              (FormatInt (end_ + offset)) (defaultLimit qd) in
                          let call := search (Query qd) options in
                          (searchOutcome call,
                           setBackoff st (backoffAfterSearch config call (backoffDuration st)))
                      end
                  end
              end
          end
      end
  end.
End Exec.

End WorkloadExec.

(** ** Per-worker rate helpers (pkg/tempo/workload.go) *)
Module WorkerRate.

Definition CalculatePerWorkerQPS (targetQPS : Q) (totalConcurrency : Z) (qpsMultiplier : Q) : Q :=
  if totalConcurrency <=? 0 then (targetQPS * qpsMultiplier)%Q
  else (targetQPS * qpsMultiplier / inject_Z totalConcurrency)%Q.

(** [int(math.Ceil(x))]: [math.Ceil] of an exact rational is its ceiling. *)
Definition CalculateBurstSize (perWorkerQPS burstMultiplier : Q) : Z :=
  let burst := Qceiling (perWorkerQPS * burstMultiplier) in
  if burst <? 1 then 1 else burst.

End WorkerRate.

(** ** Bearer token resolution (pkg/tempo/workload.go, auth part) *)
Module Auth.

(** [strings.TrimSpace] on Go's byte strings.  Go trims the runes for
    which [unicode.IsSpace] holds: the ASCII spaces \t \n \v \f \r and
    ' ', U+0085, U+00A0, U+1680, U+2000 to U+200A, U+2028, U+2029,
    U+202F, U+205F and U+3000.  Decoding a rune at the front
    ([utf8.DecodeRuneInString]) or at the back
    ([utf8.DecodeLastRuneInString]) yields one of these exactly when the
    bytes there are its UTF-8 encoding (the first byte of an encoding is
    its only non-continuation byte), so trimming repeatedly strips these
    encodings from the front, then from the back. *)
Definition spaceEncodings : list (list ascii) :=
  map (map ascii_of_nat)
    [[9]; [10]; [11]; [12]; [13]; [32]; [194; 133]; [194; 160]; [225; 154; 128];
     [226; 128; 128]; [226; 128; 129]; [226; 128; 130]; [226; 128; 131];
     [226; 128; 132]; [226; 128; 133]; [226; 128; 134]; [226; 128; 135];
     [226; 128; 136]; [226; 128; 137]; [226; 128; 138];
     [226; 128; 168]; [226; 128; 169]; [226; 128; 175]; [226; 129; 159];
     [227; 128; 128]]%nat.

Fixpoint prefixb (p l : list ascii) : bool :=
  match p, l with
  | [], _ => true
  | c :: p', d :: l' => Ascii.eqb c d && prefixb p' l'
  | _ :: _, [] => false
  end.

(** Strip encodings of [encs] from the front, one per step; each step
    removes at least one byte, so [length l] steps suffice. *)
Fixpoint trimPrefixes (encs : list (list ascii)) (fuel : nat) (l : list ascii) : list ascii :=
  match fuel with
  | O => l
  | S fuel' =>
      match find (fun e => prefixb e l) encs with
      | Some e => trimPrefixes encs fuel' (skipn (length e) l)
      | None => l
      end
  end.

Definition TrimLeftFunc_IsSpace (l : list ascii) : list ascii :=
  trimPrefixes spaceEncodings (length l) l.

Definition TrimRightFunc_IsSpace (l : list ascii) : list ascii :=
  rev (trimPrefixes (map (@rev ascii) spaceEncodings) (length l) (rev l)).

Definition TrimSpace (s : string) : string :=
  string_of_list_ascii (TrimRightFunc_IsSpace (TrimLeftFunc_IsSpace (list_ascii_of_string s))).

Definition KubernetesServiceAccountTokenPath : string :=
  "/var/run/secrets/kubernetes.io/serviceaccount/token".

(** [os.ReadFile(path)]: an error for which [os.IsNotExist] holds, another
    error, or the file's bytes. *)
Inductive ReadFileResult :=
| FileNotExist
| FileError (e : string)
| FileData (data : string).

Section Resolve.
Variable ReadFile : string -> ReadFileResult.

Definition readTokenFromFile (path : string) : string * option string :=
  match ReadFile path with
  | FileNotExist => (""%string, None)
  | FileError e => (""%string, Some e)
  | FileData data => (TrimSpace data, None)
  end.

Definition ResolveBearerToken (bearerToken bearerTokenFile : string) : string * option string :=
  if negb (String.eqb bearerToken "") then (TrimSpace bearerToken, None) else
  let fromFile :=
    if negb (String.eqb bearerTokenFile "") then
      match readTokenFromFile bearerTokenFile with
      | (_, Some err) =>
          Some (""%string, Some ("failed to read token from file " ++ bearerTokenFile ++ ": " ++ err)%string)
      | (token, None) => if negb (String.eqb token "") then Some (token, None) else None
      end
    else None in
  match fromFile with
  | Some r => r
  | None =>
      match readTokenFromFile KubernetesServiceAccountTokenPath with
      | (_, Some _) => (""%string, None)
      | (token, None) => if negb (String.eqb token "") then (token, None) else (""%string, None)
      end
  end.
End Resolve.

(** A string with no space encoding at either end. *)
Definition trimmed (t : list ascii) : Prop :=
  Forall (fun e => ~ (exists u, t = e ++ u) /\ ~ (exists u, t = u ++ e)) spaceEncodings.

End Auth.

(** Workload scenarios used below. *)
Module ExecScenarios.
Import Workload QueryClient WorkloadExec Scenarios.

Definition idleState : WorkloadState := mkWorkloadState (NewLimiter 10 20) 0 T0 0.

Definition defaultQueries (q : string) : option QueryDefinition :=
  if String.eqb q "default" then Some (mkQueryDefinition "default" "{}" 0) else None.

End ExecScenarios.

(** ** Examples: Go's parsers and formatter *)
Example ParseDuration_1h : ParseDuration "1h" = Some (3600 * Second).
Proof. vm_compute. reflexivity. Qed.
Example ParseDuration_mixed : ParseDuration "-1.5h30m" = Some (- (2 * Hour)).
Proof. vm_compute. reflexivity. Qed.
Example ParseDuration_bare : ParseDuration "123" = None.
Proof. vm_compute. reflexivity. Qed.
Example ParseDuration_zero : ParseDuration "0" = Some 0.
Proof. vm_compute. reflexivity. Qed.
Example FormatInt_neg : FormatInt (-1760000000000000123) = "-1760000000000000123"%string.
Proof. vm_compute. reflexivity. Qed.
Example ParseInt_plus : ParseInt "+42" = Some 42.
Proof. vm_compute. reflexivity. Qed.

(** ** Proofs: Go [strconv] and [time.ParseDuration] *)
Section GoStdFacts.

Lemma dec_digits_range : forall f m, 0 <= m ->
  Forall (fun d => 0 <= d <= 9) (dec_digits f m).
Proof.
  induction f as [|f IH]; intros m Hm; cbn; [constructor|].
  destruct (m <? 10) eqn:E.
  - apply Z.ltb_lt in E. repeat constructor; lia.
  - apply Forall_app; split.
    + apply IH. apply Z.div_pos; lia.
    + repeat constructor; pose proof (Z.mod_pos_bound m 10); lia.
Qed.

Lemma dec_digits_value : forall f m, 0 <= m < 2 ^ Z.of_nat f ->
  fold_left (fun a d => a * 10 + d) (dec_digits f m) 0 = m.
Proof.
  induction f as [|f IH]; intros m Hm.
  - cbn in *. lia.
  - cbn [dec_digits]. destruct (m <? 10) eqn:E; [reflexivity|].
    apply Z.ltb_ge in E.
    rewrite fold_left_app. cbn [fold_left].
    rewrite IH.
    + pose proof (Z.div_mod m 10). lia.
    + split; [apply Z.div_pos; lia|].
      rewrite Nat2Z.inj_succ, Z.pow_succ_r in Hm by lia.
      apply Z.div_lt_upper_bound; lia.
Qed.

Lemma dec_digits_nonempty : forall f m, dec_digits (S f) m <> [].
Proof.
  intros f m. cbn. destruct (m <? 10); [discriminate|].
  intro H. apply app_eq_nil in H. destruct H as [_ H]. discriminate.
Qed.

Lemma digit_char_ok : forall d, 0 <= d <= 9 ->
  is_digit (digit_char d) = true /\ digit_val (digit_char d) = d.
Proof.
  intros d Hd.
  assert (d = 0 \/ d = 1 \/ d = 2 \/ d = 3 \/ d = 4 \/ d = 5 \/ d = 6 \/ d = 7
          \/ d = 8 \/ d = 9) as Hc by lia.
  repeat destruct Hc as [Hc|Hc]; subst; split; reflexivity.
Qed.

Lemma digits_value_string : forall l acc, Forall (fun d => 0 <= d <= 9) l ->
  digits_value (string_of_digits l) acc = Some (fold_left (fun a d => a * 10 + d) l acc).
Proof.
  induction l as [|d l IH]; intros acc Hl; [reflexivity|].
  inversion Hl as [|? ? Hd Hl']; subst.
  destruct (digit_char_ok d Hd) as [H1 H2].
  change (digits_value (String (digit_char d) (string_of_digits l)) acc
          = Some (fold_left (fun a d => a * 10 + d) l (acc * 10 + d))).
  cbn [digits_value]. rewrite H1, H2. apply IH, Hl'.
Qed.

Lemma all_digits_string : forall l, Forall (fun d => 0 <= d <= 9) l ->
  all_digits (string_of_digits l) = true.
Proof.
  induction l as [|d l IH]; intros Hl; [reflexivity|].
  inversion Hl as [|? ? Hd Hl']; subst.
  change (all_digits (String (digit_char d) (string_of_digits l)) = true).
  cbn [all_digits]. rewrite (proj1 (digit_char_ok d Hd)). apply IH, Hl'.
Qed.

Lemma pos_string_value : forall m, 0 <= m -> digits_value (pos_string m) 0 = Some m.
Proof.
  intros m Hm. unfold pos_string.
  rewrite digits_value_string by (apply dec_digits_range; lia).
  f_equal. apply dec_digits_value. split; [lia|].
  rewrite Nat2Z.inj_succ, Z2Nat.id by (apply Z.log2_nonneg).
  destruct (Z.eq_dec m 0) as [->|Hm0]; [reflexivity|].
  apply Z.log2_spec. lia.
Qed.

Lemma pos_string_shape : forall m, 0 <= m ->
  exists c r, pos_string m = String c r /\ is_digit c = true /\ all_digits (String c r) = true.
Proof.
  intros m Hm. unfold pos_string.
  pose proof (dec_digits_range (S (Z.to_nat (Z.log2 m))) m Hm) as Hr.
  pose proof (all_digits_string _ Hr) as Ha.
  pose proof (dec_digits_nonempty (Z.to_nat (Z.log2 m)) m) as Hne.
  destruct (dec_digits (S (Z.to_nat (Z.log2 m))) m) as [|d l]; [congruence|].
  cbn in *. exists (digit_char d), (string_of_digits l).
  apply andb_prop in Ha as [Hd _]. split; [reflexivity|]. split; [exact Hd|].
  cbn. rewrite Hd. exact (all_digits_string l (Forall_inv_tail Hr)).
Qed.

Lemma pos_string_not_zero : forall m, 0 < m -> pos_string m <> "0"%string.
Proof.
  intros m Hm H. pose proof (pos_string_value m ltac:(lia)) as Hv. rewrite H in Hv.
  vm_compute in Hv. injection Hv. lia.
Qed.

Lemma leadingInt_digits : forall s x, all_digits s = true ->
  leadingInt_aux s x = None \/ exists v, leadingInt_aux s x = Some (v, EmptyString).
Proof.
  induction s as [|c s IH]; intros x Hs; cbn [leadingInt_aux].
  - right. eexists. reflexivity.
  - cbn in Hs. apply andb_prop in Hs as [Hc Hs]. rewrite Hc. cbn [negb].
    destruct (2 ^ 63 / 10 <? x); [left; reflexivity|].
    destruct (2 ^ 63 <? x * 10 + digit_val c); [left; reflexivity|].
    apply IH, Hs.
Qed.

Lemma pd_loop_digits : forall fuel s d, s <> EmptyString -> all_digits s = true ->
  pd_loop fuel s d = None.
Proof.
  intros fuel [|c r] d Hne Hs; [congruence|].
  destruct fuel as [|fuel]; [reflexivity|].
  pose proof Hs as Hs'. cbn in Hs'. apply andb_prop in Hs' as [Hc _].
  cbn [pd_loop]. rewrite Hc, orb_true_r. cbn [negb].
  unfold leadingInt.
  destruct (leadingInt_digits (String c r) 0 Hs) as [-> | [v ->]]; reflexivity.
Qed.

Lemma digit_not_sign : forall c, is_digit c = true ->
  Ascii.eqb c "-" = false /\ Ascii.eqb c "+" = false.
Proof.
  intros c Hc. split; destruct (Ascii.eqb c _) eqn:E; try reflexivity;
  apply Ascii.eqb_eq in E; subst; discriminate.
Qed.

Lemma ParseDuration_neg : forall s, ParseDuration (String "-" s) =
  if String.eqb s "0" then Some 0 else if String.eqb s EmptyString then None
  else match pd_loop (String.length s) s 0 with
       | None => None | Some d => Some (- d) end.
Proof. reflexivity. Qed.

Lemma ParseDuration_unsigned : forall c r, is_digit c = true ->
  ParseDuration (String c r) =
  if String.eqb (String c r) "0" then Some 0
  else match pd_loop (String.length (String c r)) (String c r) 0 with
       | None => None
       | Some d => if 2 ^ 63 - 1 <? d then None else Some d end.
Proof.
  intros c r Hc. destruct (digit_not_sign c Hc) as [Hm Hp].
  unfold ParseDuration. rewrite Hm, Hp. reflexivity.
Qed.

Lemma ParseDuration_FormatInt : forall n, n <> 0 -> ParseDuration (FormatInt n) = None.
Proof.
  intros n Hn. unfold FormatInt.
  destruct (n <? 0) eqn:Hneg.
  - apply Z.ltb_lt in Hneg.
    destruct (pos_string_shape (- n)) as [c [r [Hps [Hc Ha]]]]; [lia|].
    rewrite ParseDuration_neg.
    destruct (String.eqb (pos_string (- n)) "0") eqn:E0.
    { apply String.eqb_eq in E0. exfalso. exact (pos_string_not_zero (- n) ltac:(lia) E0). }
    rewrite Hps. change (String.eqb (String c r) EmptyString) with false. cbv iota.
    rewrite pd_loop_digits by (congruence || exact Ha). reflexivity.
  - apply Z.ltb_ge in Hneg.
    destruct (pos_string_shape n) as [c [r [Hps [Hc Ha]]]]; [lia|].
    rewrite Hps, ParseDuration_unsigned by exact Hc. rewrite <- Hps.
    destruct (String.eqb (pos_string n) "0") eqn:E0.
    { apply String.eqb_eq in E0. exfalso. exact (pos_string_not_zero n ltac:(lia) E0). }
    rewrite Hps.
    rewrite pd_loop_digits by (congruence || exact Ha). reflexivity.
Qed.

Lemma ParseInt_FormatInt : forall n, - 2 ^ 63 <= n < 2 ^ 63 ->
  ParseInt (FormatInt n) = Some n.
Proof.
  intros n Hn. unfold FormatInt.
  destruct (n <? 0) eqn:Hneg.
  - apply Z.ltb_lt in Hneg.
    destruct (pos_string_shape (- n)) as [c [r [Hps [Hc Ha]]]]; [lia|].
    pose proof (pos_string_value (- n) ltac:(lia)) as Hv.
    unfold ParseInt. change (Ascii.eqb "-" "+") with false.
    change (Ascii.eqb "-" "-") with true. cbv iota beta.
    rewrite Hps. rewrite <- Hps, Hv. cbn [negb andb].
    destruct (2 ^ 63 <? - n) eqn:E; [apply Z.ltb_lt in E; lia|].
    f_equal. lia.
  - apply Z.ltb_ge in Hneg.
    destruct (pos_string_shape n) as [c [r [Hps [Hc Ha]]]]; [lia|].
    destruct (digit_not_sign c Hc) as [Hm Hp].
    pose proof (pos_string_value n ltac:(lia)) as Hv.
    unfold ParseInt. rewrite Hps. rewrite Hm, Hp. cbv iota beta.
    rewrite <- Hps, Hv. cbn [negb andb].
    destruct (2 ^ 63 <=? n) eqn:E; [apply Z.leb_le in E; lia|]. reflexivity.
Qed.

End GoStdFacts.

(** ** Proofs: query workload *)
Module WorkloadFacts.
Import Workload Scenarios.

Lemma trunc_three_halves : forall d, trunc (inject_Z d * (3 # 2)) = Z.quot (d * 3) 2.
Proof. intros d. reflexivity. Qed.

Section Backoff.

Variable config : QueryWorkloadConfig.
Hypothesis Henable : EnableBackoff config = true.
Hypothesis Hmin : MinBackoffMs config = 200.
Hypothesis Hmax : MaxBackoffMs config = 30000.

Lemma step429 : forall d,
  HandleHTTPResponse config resp429 d =
  if d =? 0 then 200 * Millisecond
  else if 30000 * Millisecond <? Z.quot (d * 3) 2 then 30000 * Millisecond
  else Z.quot (d * 3) 2.
Proof.
  intros d. unfold HandleHTTPResponse. rewrite Henable, Hmin, Hmax.
  rewrite trunc_three_halves. reflexivity.
Qed.

Lemma step429_bounds : forall d, 0 <= d <= 30000 * Millisecond ->
  let d' := HandleHTTPResponse config resp429 d in
  d <= d' <= 30000 * Millisecond /\ (d = 0 -> d' = 200 * Millisecond).
Proof.
  intros d Hd d'. subst d'. rewrite step429.
  destruct (d =? 0) eqn:E0.
  - apply Z.eqb_eq in E0. subst. unfold Millisecond. lia.
  - apply Z.eqb_neq in E0.
    destruct (30000 * Millisecond <? Z.quot (d * 3) 2) eqn:E1.
    + split; [lia|]. intros; lia.
    + apply Z.ltb_ge in E1. split; [|intros; lia].
      rewrite Z.quot_div_nonneg in * by lia.
      split; [|lia]. apply Z.div_le_lower_bound; lia.
Qed.

Lemma trace429_sorted : forall n d, 0 <= d <= 30000 * Millisecond ->
  Sorted Z.le (backoff_trace config d (repeat resp429 n)) /\
  Forall (fun x => d <= x <= 30000 * Millisecond) (backoff_trace config d (repeat resp429 n)).
Proof.
  induction n as [|n IH]; intros d Hd; cbn [repeat backoff_trace].
  - split; constructor.
  - destruct (step429_bounds d Hd) as [[H1 H2] _].
    set (d' := HandleHTTPResponse config resp429 d) in *.
    destruct (IH d' ltac:(lia)) as [Hs Hf].
    split.
    + constructor; [exact Hs|].
      destruct (backoff_trace config d' (repeat resp429 n)) as [|x xs];
        constructor. inversion Hf; lia.
    + constructor; [lia|].
      eapply Forall_impl; [|exact Hf]. cbn. lia.
Qed.

Lemma reset_2xx : forall d r, 200 <= StatusCode r < 300 ->
  HandleHTTPResponse config r d = 0.
Proof.
  intros d r Hr. unfold HandleHTTPResponse. rewrite Henable. cbn [negb].
  destruct (StatusCode r =? 429) eqn:E1; [apply Z.eqb_eq in E1; lia|].
  destruct (500 <=? StatusCode r) eqn:E2; [apply Z.leb_le in E2; lia|].
  reflexivity.
Qed.

End Backoff.

(** Claim C4.  Backoff ladder (min 200 ms, max 30000 ms, factor 1.5):
    after any number of 429 responses without Retry-After, starting from
    the idle state, the backoffs form a non-decreasing sequence that starts
    at 200 ms and never exceeds 30000 ms; any 2xx response resets the
    backoff to 0 from every state; 429, 429, 429, 200 give 200 ms, 300 ms,
    450 ms, 0 ms. *)
Theorem backoff_ladder (config : QueryWorkloadConfig)
  (Henable : EnableBackoff config = true) (Hmin : MinBackoffMs config = 200)
  (Hmax : MaxBackoffMs config = 30000) :
  (forall n,
     let l := backoff_trace config 0 (repeat resp429 (S n)) in
     Sorted Z.le l /\ Forall (fun x => x <= 30000 * Millisecond) l /\
     hd 0 l = 200 * Millisecond) /\
  (forall d r, 200 <= StatusCode r < 300 -> HandleHTTPResponse config r d = 0) /\
  backoff_trace config 0 [resp429; resp429; resp429; mkHTTPResponse 200 ""] =
    [200 * Millisecond; 300 * Millisecond; 450 * Millisecond; 0].
Proof.
  split; [|split].
  - intros n l. subst l.
    destruct (trace429_sorted config Henable Hmin Hmax (S n) 0) as [Hs Hf];
      [unfold Millisecond; lia|].
    split; [exact Hs|]. split.
    + eapply Forall_impl; [|exact Hf]. cbn. lia.
    + cbn [repeat backoff_trace hd]. rewrite step429 by assumption. reflexivity.
  - apply reset_2xx; assumption.
  - cbn [backoff_trace]. rewrite !step429 by assumption.
    rewrite reset_2xx by (assumption || (cbn; lia)). reflexivity.
Qed.

Lemma backoff_ladder_witness :
  (EnableBackoff DefaultQueryWorkloadConfig = true /\
   MinBackoffMs DefaultQueryWorkloadConfig = 200 /\
   MaxBackoffMs DefaultQueryWorkloadConfig = 30000) /\
  backoff_trace DefaultQueryWorkloadConfig 0 [resp429; resp429; resp429; mkHTTPResponse 200 ""] =
    [200 * Millisecond; 300 * Millisecond; 450 * Millisecond; 0].
Proof.
  split; [repeat split|].
  exact (proj2 (proj2 (backoff_ladder DefaultQueryWorkloadConfig eq_refl eq_refl eq_refl))).
Defined.

End WorkloadFacts.

(** ** Proofs: time strings *)
Module TimeFacts.
Import QueryClient.

(** Claim C6 (counterexample).  ["0"] is a valid nanosecond epoch
    integer, but [parseTime] reads it as the relative duration 0 and
    returns the current time, which does not render back as ["0"]. *)
Lemma parseTime_zero_is_now :
  option_map FormatInt (parseTime (fun _ => None) 1760745600000000000 "0")
    <> Some "0"%string.
Proof. vm_compute. discriminate. Qed.

(** Claim C6 (amended).  For every int64 [n <> 0], parsing the decimal
    rendering of [n] gives back [n], so re-rendering yields the same
    string; the string ["0"] is parsed as the duration 0, i.e. as [now]. *)
Theorem parseTime_epoch_roundtrip (rfc3339 : string -> option Z) (now n : Z)
  (Hrange : - 2 ^ 63 <= n < 2 ^ 63) (Hn : n <> 0) :
  parseTime rfc3339 now (FormatInt n) = Some n /\
  option_map FormatInt (parseTime rfc3339 now (FormatInt n)) = Some (FormatInt n) /\
  parseTime rfc3339 now "0" = Some now.
Proof.
  assert (H : parseTime rfc3339 now (FormatInt n) = Some n).
  { unfold parseTime. rewrite ParseDuration_FormatInt by exact Hn.
    rewrite ParseInt_FormatInt by exact Hrange. reflexivity. }
  split; [exact H|]. split.
  - rewrite H. reflexivity.
  - unfold parseTime. change (ParseDuration "0") with (Some 0). cbv iota beta. f_equal. lia.
Qed.

Lemma parseTime_epoch_roundtrip_witness :
  (- 2 ^ 63 <= -1760745600000000000 < 2 ^ 63 /\ -1760745600000000000 <> 0) /\
  parseTime (fun _ => None) 42 (FormatInt (-1760745600000000000)) = Some (-1760745600000000000).
Proof.
  split; [split; [split; [apply Z.leb_le | apply Z.ltb_lt]; reflexivity | discriminate]|].
  exact (proj1 (parseTime_epoch_roundtrip (fun _ => None) 42 (-1760745600000000000)
                  ltac:(split; [apply Z.leb_le | apply Z.ltb_lt]; reflexivity)
                  ltac:(discriminate))).
Defined.

End TimeFacts.

(** ** Proofs: time buckets *)
Module BucketFacts.
Import Workload Scenarios.



End BucketFacts.

(** ** Proofs: burst sizes, backoff jitter, byte limiter, plan selection *)
Module LimiterFacts.
Import Workload RateLimit Scenarios.

Lemma trunc_floor_nonneg : forall q, (0 <= q)%Q -> trunc q = Qfloor q.
Proof.
  intros [n d] Hq. unfold Qle in Hq. cbn in Hq. unfold trunc, Qfloor. cbn.
  apply Z.quot_div_nonneg; lia.
Qed.

Lemma trunc_nonpos : forall q, (q < 0)%Q -> trunc q <= 0.
Proof.
  intros [n d] Hq. unfold Qlt in Hq. cbn in Hq. unfold trunc. cbn.
  pose proof (Z.quot_le_mono n 0 (Zpos d) ltac:(lia) ltac:(lia)) as Hm.
  rewrite Z.quot_0_l in Hm by lia. exact Hm.
Qed.

Lemma burst_clamp : forall q,
  (if trunc q <? 1 then 1 else trunc q) = Z.max 1 (Qfloor q).
Proof.
  intros q. destruct (Qlt_le_dec q 0) as [Hq|Hq].
  - pose proof (trunc_nonpos q Hq).
    assert (Qfloor q <= 0).
    { change 0 with (Qfloor (inject_Z 0)). apply Qfloor_resp_le.
      apply Qlt_le_weak. exact Hq. }
    destruct (trunc q <? 1) eqn:E; [lia|apply Z.ltb_ge in E; lia].
  - rewrite trunc_floor_nonneg by exact Hq.
    destruct (Qfloor q <? 1) eqn:E; [apply Z.ltb_lt in E|apply Z.ltb_ge in E]; lia.
Qed.

(** Claim C7 (code bug).  Target 3 QPS with burst multiplier 1.5: the
    query workload's burst is [int(4.5) = 4], while [ceil(4.5) = 5], which
    is also what the sibling [CalculateBurstSize] of workload.go returns for
    the same rate and multiplier; the byte limiter at 1 byte/s with
    multiplier 1.5 has burst [int(1.5) = 1], not [ceil(1.5) = 2]. *)
Lemma burst_truncates_not_ceiling :
  Burst (rateLimiter (NewQueryWorkload cfg_qps3 0)) = 4 /\
  Z.max 1 (Qceiling (TargetQPS cfg_qps3 * QPSMultiplier cfg_qps3 * BurstMultiplier cfg_qps3)) = 5 /\
  WorkerRate.CalculateBurstSize
    (WorkerRate.CalculatePerWorkerQPS (TargetQPS cfg_qps3) 1 (QPSMultiplier cfg_qps3))
    (BurstMultiplier cfg_qps3) = 5 /\
  Burst (limiter (NewByteRateLimiter (1 # 1048576) (3 # 2))) = 1 /\
  Z.max 1 (Qceiling (targetBytesPerSec (NewByteRateLimiter (1 # 1048576) (3 # 2)) * (3 # 2))) = 2.
Proof. repeat split; vm_compute; reflexivity. Qed.

(** Claim C7, the code's burst in general.  The query workload's burst is
    [max(1, floor(rate * burst-multiplier))] with [rate = target-qps *
    qps-multiplier], for every configuration; the byte limiter's burst, for
    positive MB/s and multiplier, is [max(1, floor(R * multiplier))] with
    [R] the bytes per second, and after [SetRate] it is
    [max(1, floor(R * 1.5))]: truncation where the spec rounds up. *)
Theorem burst_is_floor (config : QueryWorkloadConfig) (now : Z) (mbps m : Q)
  (r : ByteRateLimiter) (newMbps : Q)
  (Hmbps : (0 < mbps)%Q) (Hm : (0 < m)%Q) (Hnew : (0 < newMbps)%Q) :
  Burst (rateLimiter (NewQueryWorkload config now)) =
    Z.max 1 (Qfloor (TargetQPS config * QPSMultiplier config * BurstMultiplier config)) /\
  Burst (limiter (NewByteRateLimiter mbps m)) =
    Z.max 1 (Qfloor (targetBytesPerSec (NewByteRateLimiter mbps m) * m)) /\
  targetBytesPerSec (NewByteRateLimiter mbps m) = (mbps * bytesPerMB)%Q /\
  Burst (limiter (SetRate r newMbps)) =
    Z.max 1 (Qfloor (newMbps * bytesPerMB * defaultBurstMultiplier)).
Proof.
  split; [|split; [|split]].
  - unfold NewQueryWorkload. cbn [rateLimiter Burst NewLimiter burst].
    apply burst_clamp.
  - unfold NewByteRateLimiter.
    destruct (Qle_bool m 0) eqn:E1; [apply Qle_bool_iff in E1; exfalso; apply (Qlt_not_le _ _ Hm E1)|].
    destruct (Qle_bool mbps 0) eqn:E2; [apply Qle_bool_iff in E2; exfalso; apply (Qlt_not_le _ _ Hmbps E2)|].
    cbn [limiter targetBytesPerSec Burst NewLimiter burst].
    unfold calculateBurstSize, minBurstSize. apply burst_clamp.
  - unfold NewByteRateLimiter.
    destruct (Qle_bool mbps 0) eqn:E2; [apply Qle_bool_iff in E2; exfalso; apply (Qlt_not_le _ _ Hmbps E2)|].
    reflexivity.
  - unfold SetRate.
    destruct (Qle_bool newMbps 0) eqn:E2; [apply Qle_bool_iff in E2; exfalso; apply (Qlt_not_le _ _ Hnew E2)|].
    cbn [limiter Burst NewLimiter burst].
    unfold calculateBurstSize, minBurstSize. apply burst_clamp.
Qed.

Lemma burst_is_floor_witness :
  Burst (limiter (NewByteRateLimiter (1 # 3) (3 # 2))) =
    Z.max 1 (Qfloor ((1 # 3) * bytesPerMB * (3 # 2))) /\
  Burst (limiter (NewByteRateLimiter (1 # 3) (3 # 2))) = 524288.
Proof.
  split.
  - destruct (burst_is_floor cfg_qps3 0 (1 # 3) (3 # 2) byteLimiter_1mbps 1
                ltac:(reflexivity) ltac:(reflexivity) ltac:(reflexivity)) as [_ [H [Ht _]]].
    rewrite H, Ht. reflexivity.
  - vm_compute. reflexivity.
Defined.

(** Claim C8 (code bug).  With backoff and jitter enabled, [applyBackoff]
    panics for every backoff strictly between 0 and 10 ms: the jitter
    bound [delay.Milliseconds()/10] is 0 there and [rand.Intn(0)] panics. *)
Theorem applyBackoff_panics_below_10ms (config : QueryWorkloadConfig) (draw : Z -> Z) (d : Z)
  (Henable : EnableBackoff config = true) (Hjitter : BackoffJitter config = true)
  (Hd : 0 < d < 10 * Millisecond) :
  applyBackoff config draw d = Panic.
Proof.
  unfold applyBackoff. rewrite Henable, Hjitter. cbn [negb].
  destruct (0 <? d) eqn:E; [|apply Z.ltb_ge in E; lia].
  unfold Intn.
  assert (Hq : Z.quot (Z.quot d Millisecond) 10 = 0).
  { unfold Millisecond in *. rewrite (Z.quot_div_nonneg d) by lia.
    rewrite Z.quot_div_nonneg by (try apply Z.div_pos; lia).
    apply Z.div_small. split; [apply Z.div_pos; lia|].
    apply Z.div_lt_upper_bound; lia. }
  rewrite Hq. reflexivity.
Qed.

(** A 503 with [Retry-After: 20211507185753197] under the default
    configuration: [seconds * time.Second] wraps to 512 ns, which is below
    the maximum and becomes the backoff; the next [applyBackoff] panics. *)
Lemma applyBackoff_panics_below_10ms_witness :
  HandleHTTPResponse DefaultQueryWorkloadConfig (mkHTTPResponse 503 "20211507185753197") 0 = 512 /\
  applyBackoff DefaultQueryWorkloadConfig (fun _ => 0) 512 = Panic.
Proof.
  split; [vm_compute; reflexivity|].
  apply (applyBackoff_panics_below_10ms DefaultQueryWorkloadConfig (fun _ => 0) 512
           eq_refl eq_refl).
  split; [reflexivity|]. apply Z.ltb_lt. reflexivity.
Defined.

(** Claim C9.  [Wait] with a byte count [<= 0] returns nil and leaves the
    limiter untouched, whatever [WaitN] does. *)
Theorem wait_nonpositive (Ctx : Type) (WaitN : Ctx -> Z -> Limiter -> option string * Limiter)
  (ctx : Ctx) (bytes : Z) (r : ByteRateLimiter) (Hb : bytes <= 0) :
  Wait Ctx WaitN ctx bytes r = (WaitOk, r).
Proof.
  unfold Wait. destruct (bytes <=? 0) eqn:E; [reflexivity|].
  apply Z.leb_gt in E. lia.
Qed.

Lemma wait_nonpositive_witness :
  Wait unit (fun _ n l => (Some "consumed"%string, mkLimiter (limit l) (burst l - n))) tt (-5)
    byteLimiter_1mbps = (WaitOk, byteLimiter_1mbps).
Proof.
  apply (wait_nonpositive unit (fun _ n l => (Some "consumed"%string, mkLimiter (limit l) (burst l - n)))
           tt (-5) byteLimiter_1mbps).
  apply Z.leb_le. reflexivity.
Defined.

End LimiterFacts.

(** ** Proofs: execution-plan selection *)
Module PlanFacts.
Import Workload.

Lemma coerceWeight_pos : forall w, (0 < coerceWeight w)%Q.
Proof.
  intros w. unfold coerceWeight. destruct (Qle_bool w 0) eqn:E.
  - reflexivity.
  - apply Qnot_le_lt. intros H. apply Qle_bool_iff in H. congruence.
Qed.

Lemma totalWeight_from_ge : forall l acc, (acc <= totalWeight_from acc l)%Q.
Proof.
  induction l as [|e rest IH]; intros acc; cbn [totalWeight_from].
  - apply Qle_refl.
  - apply Qle_trans with (acc + coerceWeight (PWeight e))%Q; [|apply IH].
    pose proof (coerceWeight_pos (PWeight e)).
    rewrite <- (Qplus_0_r acc) at 1. apply Qplus_le_compat; [apply Qle_refl|].
    apply Qlt_le_weak; assumption.
Qed.

Lemma totalWeight_from_gt : forall l acc, l <> [] -> (acc < totalWeight_from acc l)%Q.
Proof.
  intros [|e rest] acc Hne; [congruence|]. cbn [totalWeight_from].
  apply Qlt_le_trans with (acc + coerceWeight (PWeight e))%Q; [|apply totalWeight_from_ge].
  pose proof (coerceWeight_pos (PWeight e)).
  rewrite <- (Qplus_0_r acc) at 1. apply Qplus_lt_r; assumption.
Qed.

Lemma weightedPick_found : forall l r cw i, l <> [] -> (r <= totalWeight_from cw l)%Q ->
  exists k e, weightedPick r cw i l = Some ((i + k)%nat, e) /\ nth_error l k = Some e.
Proof.
  induction l as [|e rest IH]; intros r cw i Hne Hr; [congruence|].
  cbn [weightedPick]. cbn [totalWeight_from] in Hr.
  destruct (Qle_bool r (cw + coerceWeight (PWeight e))) eqn:E.
  - exists 0%nat, e. rewrite Nat.add_0_r. split; reflexivity.
  - destruct rest as [|e' rest'].
    + cbn [totalWeight_from] in Hr. apply Qle_bool_iff in Hr. congruence.
    + destruct (IH r (cw + coerceWeight (PWeight e))%Q (S i) ltac:(discriminate) Hr)
        as [k [e1 [Hpick Hnth]]].
      exists (S k), e1. rewrite Nat.add_succ_r. split; assumption.
Qed.

(** Claim C10 (counterexample).  A one-entry plan of weight 0.5: its
    coerced total weight is 0.5, below 1. *)
Lemma plan_total_below_one :
  (totalWeight [mkPlanEntry "q" "b" (1 # 2)] < 1)%Q.
Proof. reflexivity. Qed.

(** Claim C10 (amended).  For a non-empty execution plan and a draw
    [f] in [0, 1), the coerced total weight is positive (every coerced
    weight is), so the cycling fallback is unreachable and so is the
    first-entry fallback: the selection is the weighted draw of some entry
    [e] at position [i] of the plan, and the plan index is unchanged. *)
Theorem selectPlanEntry_weighted (plan : list PlanEntry) (planIndex : Z) (f : Q)
  (Hne : plan <> []) (Hf0 : (0 <= f)%Q) (Hf1 : (f < 1)%Q) :
  (0 < totalWeight plan)%Q /\
  exists i e, selectPlanEntry plan planIndex f = (Weighted i e, planIndex) /\
              nth_error plan i = Some e.
Proof.
  pose proof (totalWeight_from_gt plan 0 Hne) as Hpos. fold (totalWeight plan) in Hpos.
  split; [exact Hpos|].
  assert (Hr : (f * totalWeight plan <= totalWeight_from 0 plan)%Q).
  { fold (totalWeight plan).
    apply Qle_trans with (1 * totalWeight plan)%Q.
    - apply Qmult_le_compat_r; apply Qlt_le_weak; assumption.
    - rewrite Qmult_1_l. apply Qle_refl. }
  destruct (weightedPick_found plan (f * totalWeight plan) 0 0 Hne Hr) as [k [e [Hpick Hnth]]].
  unfold selectPlanEntry. destruct plan as [|e0 rest]; [congruence|].
  destruct (Qeq_bool (totalWeight (e0 :: rest)) 0) eqn:E.
  - apply Qeq_bool_iff in E. rewrite E in Hpos. discriminate.
  - cbv zeta.
    rewrite Hpick. exists k, e. split; [reflexivity|exact Hnth].
Qed.

Lemma selectPlanEntry_weighted_witness :
  (0 < totalWeight [mkPlanEntry "q" "b" (1 # 2); mkPlanEntry "r" "c" 0])%Q /\
  exists i e, selectPlanEntry [mkPlanEntry "q" "b" (1 # 2); mkPlanEntry "r" "c" 0] 7 (9 # 10)
                = (Weighted i e, 7) /\
              nth_error [mkPlanEntry "q" "b" (1 # 2); mkPlanEntry "r" "c" 0] i = Some e.
Proof.
  apply (selectPlanEntry_weighted [mkPlanEntry "q" "b" (1 # 2); mkPlanEntry "r" "c" 0] 7 (9 # 10)).
  - discriminate.
  - discriminate.
  - reflexivity.
Defined.

End PlanFacts.

(** ** Proofs: timestamps of the tree generator move with the clock *)
Module ShiftFacts.
Import TreeGen TreeShift.

Section Sim.
Context {St : Type} `{RandSource St}.
Variable d : Z.

Lemma sim_ret : forall {A B} (f : A -> B) a b, b = f a -> sim d (St:=St) f (ret a) (ret b).
Proof. intros A B f a b -> s. reflexivity. Qed.

Lemma sim_bind : forall {A B C D} (f : A -> B) {g : C -> D} m1 m2 k1 k2,
  sim d (St:=St) f m1 m2 -> (forall a, sim d (St:=St) g (k1 a) (k2 (f a))) -> sim d (St:=St) g (bind m1 k1) (bind m2 k2).
Proof.
  intros A B C D f g m1 m2 k1 k2 Hm Hk s. unfold bind. rewrite Hm.
  destruct (m1 s) as [a s']. apply Hk.
Qed.

Lemma sim_rlift : forall {A} (h : St -> A * St), sim d (St:=St) (fun x => x) (rlift h) (rlift h).
Proof. intros A h s. unfold rlift. cbn. destruct (h (rng s)). reflexivity. Qed.

Lemma sim_getSpan : forall i, sim d (St:=St) (option_map (shiftSpan d)) (getSpan i) (getSpan i).
Proof. intros i s. unfold getSpan. cbn. rewrite nth_error_map. reflexivity. Qed.

Lemma list_set_map : forall {A B} (f : A -> B) l i x,
  list_set (map f l) i (f x) = map f (list_set l i x).
Proof.
  intros A B f l. induction l as [|y l IH]; intros [|i] x; cbn; try reflexivity.
  rewrite IH. reflexivity.
Qed.

Lemma sim_setSpan : forall i sp1 sp2, sp2 = shiftSpan d sp1 ->
  sim d (St:=St) (fun x => x) (setSpan i sp1) (setSpan i sp2).
Proof.
  intros i sp1 sp2 -> s. unfold setSpan, shiftState. cbn [spans rng spansByService fst snd].
  rewrite list_set_map. reflexivity.
Qed.

Lemma sim_appendSpan : forall svc sp1 sp2, sp2 = shiftSpan d sp1 ->
  sim d (St:=St) (fun x => x) (appendSpan svc sp1) (appendSpan svc sp2).
Proof.
  intros svc sp1 sp2 -> s. unfold appendSpan, shiftState. cbn [spans rng spansByService fst snd].
  rewrite length_map, map_app. reflexivity.
Qed.

Create HintDb sim_db.
Hint Resolve sim_rlift sim_getSpan : sim_db.

Ltac sim_bind_id := apply (sim_bind (fun x => x)); [eauto with sim_db | intros; cbv beta].

Lemma sim_randomBytes : forall n, sim d (St:=St) (fun x => x) (randomBytes n) (randomBytes n).
Proof.
  induction n as [|n IH]; cbn [randomBytes].
  - apply sim_ret. reflexivity.
  - unfold rIntn. sim_bind_id. apply (sim_bind (fun x => x)); [exact IH|intros].
    apply sim_ret. reflexivity.
Qed.

Lemma sim_calculateDuration : forall dur,
  sim d (St:=St) (fun x => x) (calculateDurationFromConfig dur) (calculateDurationFromConfig dur).
Proof.
  intros dur. unfold calculateDurationFromConfig, rNormFloat64. sim_bind_id.
  apply sim_ret. reflexivity.
Qed.

Lemma sim_getRandomErrorMessage :
  sim d (St:=St) (fun x => x) getRandomErrorMessage getRandomErrorMessage.
Proof.
  unfold getRandomErrorMessage, rIntn. sim_bind_id. apply sim_ret. reflexivity.
Qed.

Lemma sim_SelectChildren : forall edges,
  sim d (St:=St) (fun x => x) (SelectChildren edges) (SelectChildren edges).
Proof.
  induction edges as [|e rest IH]; cbn [SelectChildren].
  - apply sim_ret. reflexivity.
  - unfold rFloat64. sim_bind_id.
    destruct (Qltb _ _); [|exact IH].
    apply (sim_bind (fun x => x)).
    + destruct (0 <? _); [destruct (_ <? _)|].
      * unfold rIntn. sim_bind_id. apply sim_ret. reflexivity.
      * apply sim_ret. reflexivity.
      * apply sim_ret. reflexivity.
    + intros c. apply (sim_bind (fun x => x)); [exact IH|intros].
      apply sim_ret. reflexivity.
Qed.

Lemma sim_childTiming : forall ps pe du,
  sim d (St:=St) (fun t => (fst t + d, snd t)) (childTiming ps pe du) (childTiming (ps + d) (pe + d) du).
Proof.
  intros ps pe du. unfold childTiming, rFloat64. sim_bind_id.
  apply sim_ret. cbv zeta. cbn [fst snd].
  replace (pe + d - (ps + d)) with (pe - ps) by lia.
  set (dl := trunc _).
  replace (pe + d - Millisecond * 10) with (pe - Millisecond * 10 + d) by lia.
  replace (ps + d + dl) with (ps + dl + d) by lia.
  replace (pe - Millisecond * 10 + d - (ps + dl + d)) with (pe - Millisecond * 10 - (ps + dl)) by lia.
  f_equal.
  destruct (pe - Millisecond * 10 <? ps + dl + du) eqn:E1;
  destruct (pe - Millisecond * 10 + d <? ps + dl + d + du) eqn:E2; try reflexivity;
  rewrite ?Z.ltb_lt, ?Z.ltb_ge in E1, E2; lia.
Qed.

Lemma sim_startAndDuration : forall parent pst du,
  sim d (St:=St) (fun t => (fst t + d, snd t)) (startAndDuration parent pst du)
      (startAndDuration parent (pst + d) du).
Proof.
  intros [p|] pst du; cbn [startAndDuration].
  - apply (sim_bind (option_map (shiftSpan d))); [apply sim_getSpan|intros [ps|]].
    + cbn [option_map shiftSpan StartTimeUnixNano EndTimeUnixNano]. apply sim_childTiming.
    + apply sim_ret. reflexivity.
  - apply sim_ret. reflexivity.
Qed.

Lemma sim_parentSpanId : forall parent,
  sim d (St:=St) (fun x => x) (parentSpanId parent) (parentSpanId parent).
Proof.
  intros [p|]; cbn [parentSpanId].
  - apply (sim_bind (option_map (shiftSpan d))); [apply sim_getSpan|intros [ps|]];
      apply sim_ret; reflexivity.
  - apply sim_ret. reflexivity.
Qed.

Lemma sim_markParentError : forall span,
  sim d (St:=St) (fun x => x) (markParentError span) (markParentError span).
Proof.
  intros span. unfold markParentError.
  apply (sim_bind (option_map (shiftSpan d))); [apply sim_getSpan|intros [ps|]].
  - apply sim_setSpan. reflexivity.
  - apply sim_ret. reflexivity.
Qed.

Section Loops.
Variable g : option TraceTreeNode -> option nat -> Z -> @M St (option nat).
Hypothesis Hg : forall n p pst, sim d (St:=St) (fun x => x) (g n p pst) (g n p (pst + d)).

Lemma sim_sequential_loop : forall span edges cur,
  sim d (St:=St) (fun c => c + d) (sequential_loop g span edges cur)
      (sequential_loop g span edges (cur + d)).
Proof.
  intros span edges. induction edges as [|e rest IH]; intros cur; cbn [sequential_loop].
  - apply sim_ret. reflexivity.
  - apply (sim_bind (fun x => x)); [apply Hg|intros c].
    apply (sim_bind (fun c => c + d)); [|intros; apply IH].
    destruct c as [c|].
    + apply (sim_bind (option_map (shiftSpan d))); [apply sim_getSpan|intros [cs|]].
      * apply sim_ret. cbn [option_map shiftSpan EndTimeUnixNano].
        destruct (cur <? EndTimeUnixNano cs) eqn:E1;
        destruct (cur + d <? EndTimeUnixNano cs + d) eqn:E2; try reflexivity;
        rewrite ?Z.ltb_lt, ?Z.ltb_ge in E1, E2; lia.
      * apply sim_ret. reflexivity.
    + apply sim_ret. reflexivity.
Qed.

Lemma sim_parallel_loop : forall span endTime edges cur,
  sim d (St:=St) (fun x => x) (parallel_loop g span endTime edges cur)
      (parallel_loop g span (endTime + d) edges (cur + d)).
Proof.
  intros span endTime edges. induction edges as [|e rest IH]; intros cur;
    cbn [parallel_loop].
  - apply sim_ret. reflexivity.
  - cbv zeta. replace (endTime + d - (cur + d)) with (endTime - cur) by lia.
    apply (sim_bind (fun x => x)); [|intros; apply IH].
    destruct (0 <? endTime - cur); [|apply sim_ret; reflexivity].
    unfold rFloat64. sim_bind_id.
    set (dl := trunc _).
    replace (cur + d + dl) with (cur + dl + d) by lia.
    apply (sim_bind (fun x => x)); [apply Hg|intros [c|]].
    + apply (sim_bind (option_map (shiftSpan d))); [apply sim_getSpan|intros [cs|]].
      * cbn [option_map shiftSpan Status_]. destruct (Node e) as [cn|].
        -- destruct (is_error (Status_ cs) && ErrorPropagates cn).
           ++ apply sim_markParentError.
           ++ apply sim_ret. reflexivity.
        -- apply sim_ret. reflexivity.
      * cbn [option_map]. apply sim_ret. reflexivity.
    + apply sim_ret. reflexivity.
Qed.

End Loops.

Lemma sim_generateSpansFromNode : forall {TraceCtx} (helpers : Helpers St TraceCtx)
  defaults traceCtx traceID fuel node parent pst,
  sim d (St:=St) (fun x => x)
    (generateSpansFromNode helpers defaults traceCtx traceID fuel node parent pst)
    (generateSpansFromNode helpers defaults traceCtx traceID fuel node parent (pst + d)).
Proof.
  intros TraceCtx helpers defaults traceCtx traceID fuel.
  induction fuel as [|fuel IH]; intros node parent pst.
  - apply sim_ret. reflexivity.
  - destruct node as [nd|]; [|apply sim_ret; reflexivity].
    cbn [generateSpansFromNode].
    apply (sim_bind (fun x => x)); [apply sim_calculateDuration|intros du].
    apply (sim_bind (fun t => (fst t + d, snd t)));
      [apply sim_startAndDuration|intros [st dur]].
    cbv beta zeta. cbn [fst snd].
    unfold rFloat64. sim_bind_id.
    apply (sim_bind (fun x => x)).
    { destruct (Qltb _ _).
      - apply (sim_bind (fun x => x)); [apply sim_getRandomErrorMessage|intros].
        apply sim_ret. reflexivity.
      - apply sim_ret. reflexivity. }
    intros status.
    apply (sim_bind (fun x => x)); [apply sim_randomBytes|intros spanID].
    apply (sim_bind (fun x => x)); [apply sim_parentSpanId|intros pid].
    apply (sim_bind (fun x => x)).
    { destruct (UseSemanticAttributes defaults); [apply sim_rlift|apply sim_ret; reflexivity]. }
    intros sem.
    apply (sim_bind (fun x => x)).
    { destruct (EnableTags defaults); [apply sim_rlift|apply sim_ret; reflexivity]. }
    intros tags.
    apply (sim_bind (fun x => x)).
    { apply sim_appendSpan. unfold shiftSpan. cbn. f_equal. lia. }
    intros span.
    destruct (Children nd) as [|e kids].
    + apply sim_ret. reflexivity.
    + apply (sim_bind (fun x => x)); [apply sim_SelectChildren|intros sel].
      cbv zeta.
      apply (sim_bind (fun c => c + d)); [apply sim_sequential_loop; intros; apply IH|intros c].
      replace (st + d + dur) with (st + dur + d) by lia.
      apply (sim_bind (fun x => x)); [apply sim_parallel_loop; intros; apply IH|intros].
      apply sim_ret. reflexivity.
Qed.

End Sim.
End ShiftFacts.

(** ** Proofs: tree generator *)
Module TreeFacts.
Import TreeGen TreeShift ShiftFacts Scenarios TreeScenarios.

Lemma spansOf_shift : forall {St} d (gs : GenState St) svc,
  spansOf (shiftState d gs) svc = map (shiftSpan d) (spansOf gs svc).
Proof.
  intros St d gs svc. unfold spansOf, shiftState. cbn [spansByService spans].
  destruct (find _ _) as [[k idxs]|]; [|reflexivity].
  induction idxs as [|i idxs IH]; [reflexivity|]. cbn [flat_map].
  rewrite nth_error_map. destruct (nth_error (spans gs) i); cbn; rewrite IH; reflexivity.
Qed.

Lemma resourceSpans_loop_shift : forall {St TraceCtx} (helpers : Helpers St TraceCtx) d gs services r,
  resourceSpans_loop helpers (shiftState d gs) services r =
  map (shiftResourceSpans d) (resourceSpans_loop helpers gs services r).
Proof.
  intros St TraceCtx helpers d gs services. induction services as [|svc rest IH]; intros r;
    cbn [resourceSpans_loop]; [reflexivity|].
  destruct (generateResourceAttributes helpers svc r) as [attrs r'].
  cbn [map]. rewrite spansOf_shift, IH. reflexivity.
Qed.




Lemma trunc_nonneg_of : forall q, (0 <= q)%Q -> 0 <= trunc q.
Proof.
  intros q Hq. rewrite LimiterFacts.trunc_floor_nonneg by exact Hq.
  change 0 with (Qfloor (inject_Z 0)). apply Qfloor_resp_le. exact Hq.
Qed.

(** Claim C2 (code bug).  For a parent shorter than 2 ms and any child
    duration of at least 1 ms (which [calculateDurationFromConfig] yields
    whenever the drawn duration fits in an int64) and every non-negative draw of
    [Float64], the child starts no earlier than its parent, but the 10 ms
    clamp with its 1 ms floor makes the child end later than
    [parent.end - 1ms]. *)
Theorem childTiming_overruns_short_parent {St} `{RandSource St}
  (parentStart parentEnd duration : Z) (s : GenState St)
  (Hf : (0 <= fst (Float64 (rng s)))%Q)
  (Hp : parentStart <= parentEnd < parentStart + 2 * Millisecond)
  (Hd : Millisecond <= duration) :
  parentStart <= fst (fst (childTiming parentStart parentEnd duration s)) /\
  parentEnd < fst (fst (childTiming parentStart parentEnd duration s))
              + snd (fst (childTiming parentStart parentEnd duration s)) + Millisecond.
Proof.
  unfold childTiming, bind, rFloat64, rlift, ret.
  destruct (Float64 (rng s)) as [f r]. cbn [fst snd] in *.
  set (dl := trunc _).
  assert (Hdl : 0 <= dl).
  { apply trunc_nonneg_of. apply Qmult_le_0_compat; [apply Qmult_le_0_compat; [exact Hf|discriminate]|].
    unfold Qle. cbn. lia. }
  unfold Millisecond in *.
  destruct (parentEnd - 1000000 * 10 <? parentStart + dl + duration) eqn:E1;
    [|apply Z.ltb_ge in E1; lia].
  destruct (parentEnd - 1000000 * 10 - (parentStart + dl) <? 1000000) eqn:E2;
    [|apply Z.ltb_ge in E2; lia].
  lia.
Qed.

Lemma childTiming_overruns_short_parent_witness :
  (0 <= fst (Float64 (rng T0state)))%Q /\
  T0 <= T0 + Millisecond < T0 + 2 * Millisecond /\ Millisecond <= 25 * Millisecond /\
  T0 <= fst (fst (childTiming T0 (T0 + Millisecond) (25 * Millisecond) T0state)) /\
  T0 + Millisecond < fst (fst (childTiming T0 (T0 + Millisecond) (25 * Millisecond) T0state))
    + snd (fst (childTiming T0 (T0 + Millisecond) (25 * Millisecond) T0state)) + Millisecond.
Proof.
  assert (Hf : (0 <= fst (Float64 (rng T0state)))%Q) by (vm_compute; discriminate).
  assert (Hp : T0 <= T0 + Millisecond < T0 + 2 * Millisecond) by (unfold Millisecond; lia).
  assert (Hd : Millisecond <= 25 * Millisecond) by (unfold Millisecond; lia).
  split; [exact Hf|]. split; [exact Hp|]. split; [exact Hd|].
  exact (childTiming_overruns_short_parent T0 (T0 + Millisecond) (25 * Millisecond) T0state Hf Hp Hd).
Defined.

(** The failing input of claim C2 end to end: a 1 ms root [api] with one
    always-selected child [db] of 25 ms; the child ends 0.28 ms after its
    parent. *)
Lemma short_parent_trace :
  map (fun r => map (fun sp => (StartTimeUnixNano sp, EndTimeUnixNano sp)) (ScopeSpans r))
    (GenerateTraceFromTree demoHelpers (cfgOf 42 shortParentTree) T0 [] (fun l => l)) =
  [[(1760744990000000000, 1760744990001000000)];
   [(1760744990000280006, 1760744990001280006)]].
Proof. vm_compute. reflexivity. Qed.

(** Claim C3 (code bug).  A root with error rate 0 and one always-selected
    child with error rate 1 and [errorPropagates]: over a sequential edge
    the child fails and the root stays OK; over a parallel edge the root
    becomes an error with message "child span failed". *)
Lemma sequential_error_not_propagated :
  map (fun r => map (fun sp => Status_ sp) (ScopeSpans r))
    (GenerateTraceFromTree demoHelpers (cfgOf 42 seqErrorTree) T0 [] (fun l => l)) =
  [[mkStatus STATUS_CODE_OK ""]; [mkStatus STATUS_CODE_ERROR "permission denied"]] /\
  map (fun r => map (fun sp => Status_ sp) (ScopeSpans r))
    (GenerateTraceFromTree demoHelpers (cfgOf 42 parErrorTree) T0 [] (fun l => l)) =
  [[mkStatus STATUS_CODE_ERROR "child span failed"]; [mkStatus STATUS_CODE_ERROR "permission denied"]].
Proof. split; vm_compute; reflexivity. Qed.

End TreeFacts.

(** ** Proofs: the tree generator's span arena *)
Module TreeInvFacts.
Import TreeGen TreeInv.


Section Monad.
Context {St : Type} `{RandSource St}.

Lemma bind_eq : forall {A B} (m : @M St A) (k : A -> M B) s,
  bind m k s = k (fst (m s)) (snd (m s)).
Proof. intros. unfold bind. destruct (m s); reflexivity. Qed.

Lemma rng_only_ret : forall {A} (a : A), rng_only (ret (St:=St) a).
Proof. intros A a s. split; reflexivity. Qed.

Lemma rng_only_bind : forall {A B} (m : @M St A) (k : A -> M B),
  rng_only m -> (forall a, rng_only (k a)) -> rng_only (bind m k).
Proof.
  intros A B m k Hm Hk s. rewrite bind_eq.
  destruct (Hm s) as [E1 E2]. destruct (Hk (fst (m s)) (snd (m s))) as [F1 F2].
  split; congruence.
Qed.

Lemma rng_only_rlift : forall {A} (h : St -> A * St), rng_only (rlift h).
Proof. intros A h s. unfold rlift. destruct (h (rng s)). split; reflexivity. Qed.

Lemma rng_only_getSpan : forall i, rng_only (getSpan (St:=St) i).
Proof. intros i s. split; reflexivity. Qed.

Lemma rng_only_if : forall {A} (b : bool) (m1 m2 : @M St A),
  rng_only m1 -> rng_only m2 -> rng_only (if b then m1 else m2).
Proof. intros A [] m1 m2; auto. Qed.

End Monad.

Create HintDb rng_db.

Ltac rng_auto :=
  repeat first [ apply rng_only_bind; intros
               | apply rng_only_if
               | apply rng_only_ret | apply rng_only_rlift | apply rng_only_getSpan
               | match goal with |- rng_only (match ?x with _ => _ end) => destruct x end ].

Section Arena.
Context {St : Type} `{RandSource St}.


Lemma rng_only_randomBytes : forall n, rng_only (randomBytes (St:=St) n).
Proof. induction n; cbn; unfold rIntn; rng_auto; auto. Qed.

Lemma randomBytes_length : forall n (s : GenState St), length (fst (randomBytes n s)) = n.
Proof.
  induction n; intro s; [reflexivity|].
  cbn [randomBytes]. rewrite !bind_eq. cbn [fst snd ret]. cbn [length]. f_equal. apply IHn.
Qed.

Lemma rng_only_calc : forall dur, rng_only (calculateDurationFromConfig (St:=St) dur).
Proof. intro dur. unfold calculateDurationFromConfig, rNormFloat64. rng_auto. Qed.

Lemma rng_only_errmsg : rng_only (getRandomErrorMessage (St:=St)).
Proof. unfold getRandomErrorMessage, rIntn. rng_auto. Qed.

Lemma rng_only_SelectChildren : forall edges, rng_only (SelectChildren (St:=St) edges).
Proof. induction edges; cbn; unfold rFloat64, rIntn; rng_auto; auto. Qed.

Lemma rng_only_childTiming : forall a b c, rng_only (childTiming (St:=St) a b c).
Proof. intros. unfold childTiming, rFloat64. rng_auto. Qed.

Lemma rng_only_startAndDuration : forall p a b, rng_only (startAndDuration (St:=St) p a b).
Proof. intros [p|] a b; unfold startAndDuration; rng_auto; apply rng_only_childTiming. Qed.

Lemma rng_only_parentSpanId : forall p, rng_only (parentSpanId (St:=St) p).
Proof. intros [p|]; unfold parentSpanId; rng_auto. Qed.

Lemma Inv_same : forall tid (s s' : GenState St),
  spans s' = spans s -> spansByService s' = spansByService s -> Inv tid s -> Inv tid s'.
Proof. intros tid s s' E1 E2 Hi. unfold Inv. rewrite E1, E2. exact Hi. Qed.

Lemma Ext_refl : forall (s : GenState St), Ext s s.
Proof. intros s i sp E. exists sp. split; [exact E|reflexivity]. Qed.

Lemma Ext_same : forall (s s' : GenState St), spans s' = spans s -> Ext s s'.
Proof. intros s s' E i sp Hn. exists sp. rewrite E. split; [exact Hn|reflexivity]. Qed.

Lemma Ext_trans : forall (s1 s2 s3 : GenState St), Ext s1 s2 -> Ext s2 s3 -> Ext s1 s3.
Proof.
  intros s1 s2 s3 H12 H23 i sp E.
  destruct (H12 i sp E) as [sp2 [E2 K2]]. destruct (H23 i sp2 E2) as [sp3 [E3 K3]].
  exists sp3. split; [exact E3|congruence].
Qed.

Lemma Ext_length : forall (s s' : GenState St) p,
  Ext s s' -> (p < length (spans s))%nat -> (p < length (spans s'))%nat.
Proof.
  intros s s' p HE Hp.
  destruct (nth_error (spans s) p) as [sp|] eqn:E.
  - destruct (HE p sp E) as [sp' [E' _]]. apply nth_error_Some. congruence.
  - apply nth_error_None in E. lia.
Qed.

(** [markParentError] *)
Lemma nth_error_list_set : forall {A} (l : list A) i x j,
  nth_error (list_set l i x) j =
  if Nat.eqb j i then option_map (fun _ => x) (nth_error l j) else nth_error l j.
Proof.
  induction l as [|y l IH]; intros i x j.
  - destruct i, j; cbn; try reflexivity; destruct (Nat.eqb _ _); reflexivity.
  - destruct i as [|i], j as [|j]; cbn; try reflexivity.
    rewrite IH. reflexivity.
Qed.

Lemma length_list_set : forall {A} (l : list A) i x, length (list_set l i x) = length l.
Proof. induction l; intros [|i] x; cbn; auto. Qed.

Lemma skel_transfer : forall tid (s s' : GenState St),
  length (spans s') = length (spans s) ->
  (forall j, option_map skel (nth_error (spans s') j) = option_map skel (nth_error (spans s) j)) ->
  spansByService s' = spansByService s ->
  Inv tid s -> Inv tid s' /\ Ext s s'.
Proof.
  intros tid s s' Hlen Hsk Hm [I1 [I2 I3]].
  assert (Hback : forall j sp', nth_error (spans s') j = Some sp' ->
            exists sp, nth_error (spans s) j = Some sp /\ skel sp = skel sp').
  { intros j sp' E. specialize (Hsk j). rewrite E in Hsk.
    destruct (nth_error (spans s) j) as [sp|]; cbn in Hsk; [|discriminate].
    exists sp. split; [reflexivity|]. congruence. }
  assert (Hfwd : forall j sp, nth_error (spans s) j = Some sp ->
            exists sp', nth_error (spans s') j = Some sp' /\ skel sp' = skel sp).
  { intros j sp E. specialize (Hsk j). rewrite E in Hsk.
    destruct (nth_error (spans s') j) as [sp'|]; cbn in Hsk; [|discriminate].
    exists sp'. split; [reflexivity|]. congruence. }
  split; [|exact Hfwd].
  split; [|split].
  - intros i sp' E. destruct (Hback i sp' E) as [sp [E0 K]].
    destruct (I1 i sp E0) as [[T S] P].
    unfold skel in K. injection K as K1 K2 K3 K4 K5 K6 K7 K8.
    split.
    + unfold span_ok. rewrite <- K1, <- K2. auto.
    + destruct P as [P|[j [pp [Ej Sj]]]].
      * left. congruence.
      * right. destruct (Hfwd j pp Ej) as [pp' [Ej' Kp]].
        unfold skel in Kp. injection Kp as P1 P2 P3 P4 P5 P6 P7 P8.
        exists j, pp'. split; [exact Ej'|]. congruence.
  - intros i Hi. rewrite Hm. apply I2. lia.
  - intros k idxs i Hin Hi. rewrite Hm in Hin. destruct (I3 k idxs i Hin Hi) as [sp [E A]].
    destruct (Hfwd i sp E) as [sp' [E' K]]. exists sp'. split; [exact E'|].
    unfold skel in K. injection K as K1 K2 K3 K4 K5 K6 K7 K8. congruence.
Qed.

Lemma markParentError_inv : forall tid i (s : GenState St),
  Inv tid s -> LoopPost tid s (markParentError i s).
Proof.
  intros tid i s HI. unfold markParentError. rewrite bind_eq. cbn [getSpan fst snd].
  destruct (nth_error (spans s) i) as [ps|] eqn:E.
  - unfold setSpan, LoopPost. cbn [snd spans spansByService].
    apply (skel_transfer tid s); cbn [spans spansByService].
    + apply length_list_set.
    + intro j. rewrite nth_error_list_set. destruct (Nat.eqb j i) eqn:Ej.
      * apply Nat.eqb_eq in Ej. subst j. rewrite E. reflexivity.
      * reflexivity.
    + reflexivity.
    + exact HI.
  - unfold LoopPost. cbn. split; [exact HI|apply Ext_refl].
Qed.

(** [appendSpan] *)
Lemma find_service_add_same : forall svc i m,
  exists idxs, find_service svc (addToService svc i m) = Some (svc, idxs) /\ In i idxs.
Proof.
  intros svc i m. induction m as [|[k l] m IH]; cbn.
  - unfold find_service. cbn. rewrite String.eqb_refl. exists [i]. split; [reflexivity|left; reflexivity].
  - destruct (String.eqb k svc) eqn:Ek.
    + apply String.eqb_eq in Ek. subst k. unfold find_service. cbn. rewrite String.eqb_refl.
      exists (l ++ [i]). split; [reflexivity|]. apply in_or_app. right. left. reflexivity.
    + destruct IH as [idxs [F Hi]]. exists idxs. split; [|exact Hi].
      unfold find_service in *. cbn. rewrite Ek. exact F.
Qed.

Lemma find_service_add_other : forall svc i m k idxs j,
  find_service k m = Some (k, idxs) -> In j idxs ->
  exists idxs', find_service k (addToService svc i m) = Some (k, idxs') /\ In j idxs'.
Proof.
  intros svc i m. induction m as [|[k0 l] m IH]; intros k idxs j F Hj.
  - discriminate.
  - unfold find_service in F. cbn in F. cbn [addToService].
    destruct (String.eqb k0 k) eqn:Ek0.
    + injection F as E1 E2. subst k idxs.
      destruct (String.eqb k0 svc) eqn:Es.
      * exists (l ++ [i]). unfold find_service. cbn. rewrite String.eqb_refl.
        split; [reflexivity|]. apply in_or_app. left. exact Hj.
      * exists l. unfold find_service. cbn. rewrite String.eqb_refl. split; [reflexivity|exact Hj].
    + destruct (String.eqb k0 svc) eqn:Es.
      * exists idxs. unfold find_service. cbn. rewrite Ek0. split; [exact F|exact Hj].
      * destruct (IH k idxs j F Hj) as [idxs' [F' Hj']]. exists idxs'.
        unfold find_service in *. cbn. rewrite Ek0. split; [exact F'|exact Hj'].
Qed.

Lemma in_addToService : forall svc i m k idxs j,
  In (k, idxs) (addToService svc i m) -> In j idxs ->
  (exists idxs0, In (k, idxs0) m /\ In j idxs0) \/ (k = svc /\ j = i).
Proof.
  intros svc i m. induction m as [|[k0 l] m IH]; intros k idxs j Hin Hj; cbn in Hin.
  - destruct Hin as [Hin|[]]. injection Hin as <- <-. destruct Hj as [<-|[]]. right. auto.
  - destruct (String.eqb k0 svc) eqn:Es.
    + apply String.eqb_eq in Es. subst k0.
      destruct Hin as [Hin|Hin].
      * injection Hin as <- <-. apply in_app_or in Hj. destruct Hj as [Hj|[<-|[]]].
        -- left. exists l. split; [left; reflexivity|exact Hj].
        -- right. auto.
      * left. exists idxs. split; [right; exact Hin|exact Hj].
    + destruct Hin as [Hin|Hin].
      * injection Hin as <- <-. left. exists l. split; [left; reflexivity|exact Hj].
      * destruct (IH k idxs j Hin Hj) as [[idxs0 [H0 H1]]|H0].
        -- left. exists idxs0. split; [right; exact H0|exact H1].
        -- right. exact H0.
Qed.

Lemma appendSpan_inv : forall tid svc sp (s : GenState St),
  Inv tid s -> span_ok tid sp -> parent_ok (spans s) sp ->
  hd_error (Attributes sp) = service_attr svc ->
  Inv tid (snd (appendSpan svc sp s)) /\ Ext s (snd (appendSpan svc sp s)) /\
  fst (appendSpan svc sp s) = length (spans s).
Proof.
  intros tid svc sp s [I1 [I2 I3]] Hok Hpar Hsvc.
  unfold appendSpan. cbn [fst snd spans spansByService].
  assert (Hold : forall j x, nth_error (spans s) j = Some x -> nth_error (spans s ++ [sp]) j = Some x).
  { intros j x E. rewrite nth_error_app1; [exact E|]. apply nth_error_Some. congruence. }
  split; [|split; [|reflexivity]].
  - unfold Inv. cbn [spans spansByService]. split; [|split].
    + intros i x E. destruct (Nat.lt_ge_cases i (length (spans s))) as [Hi|Hi].
      * rewrite nth_error_app1 in E by exact Hi. destruct (I1 i x E) as [Ok P].
        split; [exact Ok|]. destruct P as [P|[j [pp [Ej Rest]]]]; [left; exact P|].
        right. exists j, pp. split; [apply Hold; exact Ej|exact Rest].
      * rewrite nth_error_app2 in E by exact Hi.
        destruct (i - length (spans s))%nat as [|n]; cbn in E.
        -- injection E as <-. split; [exact Hok|].
           destruct Hpar as [P|[j [pp [Ej Rest]]]]; [left; exact P|].
           right. exists j, pp. split; [apply Hold; exact Ej|exact Rest].
        -- destruct n; discriminate.
    + intros i Hi. rewrite length_app in Hi. cbn in Hi.
      destruct (Nat.lt_ge_cases i (length (spans s))) as [Hlt|Hge].
      * destruct (I2 i Hlt) as [k [idxs [F Hin]]].
        destruct (find_service_add_other svc (length (spans s)) _ k idxs i F Hin) as [idxs' [F' Hin']].
        exists k, idxs'. split; assumption.
      * assert (i = length (spans s)) by lia. subst i.
        destruct (find_service_add_same svc (length (spans s)) (spansByService s)) as [idxs [F Hin]].
        exists svc, idxs. split; assumption.
    + intros k idxs i Hin Hi.
      destruct (in_addToService _ _ _ _ _ _ Hin Hi) as [[idxs0 [H0 H1]]|[-> ->]].
      * destruct (I3 k idxs0 i H0 H1) as [x [E A]]. exists x. split; [apply Hold; exact E|exact A].
      * exists sp. split; [|exact Hsvc]. rewrite nth_error_app2 by lia.
        rewrite Nat.sub_diag. reflexivity.
  - intros i x E. exists x. split; [apply Hold; exact E|reflexivity].
Qed.

Lemma parentSpanId_val : forall parent (s : GenState St),
  parentSpanId parent s =
  (match parent with
   | None => []
   | Some p => match nth_error (spans s) p with Some ps => SpanId ps | None => [] end
   end, s).
Proof. intros [p|] s; reflexivity. Qed.

Lemma LoopPost_trans : forall {A} tid (s s1 : GenState St) (r : A * GenState St),
  Ext s s1 -> LoopPost tid s1 r -> LoopPost tid s r.
Proof. intros A tid s s1 r X [I X1]. split; [exact I|]. apply Ext_trans with s1; assumption. Qed.

Lemma LoopPost_bind : forall {A B} tid (m : @M St A) (k : A -> M B) (s : GenState St),
  LoopPost tid s (m s) ->
  (forall a s1, Inv tid s1 -> Ext s s1 -> LoopPost tid s1 (k a s1)) ->
  LoopPost tid s (bind m k s).
Proof.
  intros A B tid m k s [I1 X1] Hk. rewrite bind_eq.
  apply LoopPost_trans with (snd (m s)); [exact X1|]. apply Hk; assumption.
Qed.

Lemma GenPost_trans : forall tid (s s1 : GenState St) r,
  Ext s s1 -> GenPost tid s1 r -> GenPost tid s r.
Proof.
  intros tid s s1 r X [I [X1 L]]. split; [exact I|split; [|exact L]].
  apply Ext_trans with s1; assumption.
Qed.

Lemma GenPost_bind : forall {A} tid (m : @M St A) (k : A -> M (option nat)) (s : GenState St),
  LoopPost tid s (m s) ->
  (forall a s1, Inv tid s1 -> Ext s s1 -> GenPost tid s1 (k a s1)) ->
  GenPost tid s (bind m k s).
Proof.
  intros A tid m k s [I1 X1] Hk. rewrite bind_eq.
  apply GenPost_trans with (snd (m s)); [exact X1|]. apply Hk; assumption.
Qed.

End Arena.

#[local] Hint Resolve rng_only_randomBytes rng_only_calc rng_only_errmsg rng_only_SelectChildren
  rng_only_startAndDuration rng_only_parentSpanId rng_only_childTiming : rng_db.

Ltac rstep_as E Rs Rm x s1 :=
  match goal with
  | |- context [bind ?m ?k ?s] =>
      let R := fresh "R" in
      assert (R : rng_only m) by (rng_auto; auto with rng_db);
      rewrite (bind_eq m k s);
      destruct (R s) as [Rs Rm];
      destruct (m s) as [x s1] eqn:E;
      cbn [fst snd] in Rs, Rm |- *;
      clear R
  end.


Section Loops.
Context {St : Type} `{RandSource St}.
Variable tid : list Z.
Variable g : option TraceTreeNode -> option nat -> Z -> @M St (option nat).
Hypothesis Hg : forall node parent pst s, Inv tid s ->
  (forall p, parent = Some p -> (p < length (spans s))%nat) ->
  GenPost tid s (g node parent pst s).

Lemma sequential_loop_inv : forall edges span ct (s : GenState St),
  Inv tid s -> (span < length (spans s))%nat ->
  LoopPost tid s (sequential_loop g span edges ct s).
Proof.
  induction edges as [|e rest IH]; intros span ct s HI Hs; cbn [sequential_loop].
  - split; [exact HI|apply Ext_refl].
  - rewrite bind_eq.
    assert (P1 := Hg (Node e) (Some span) ct s HI ltac:(intros p Ep; injection Ep as <-; exact Hs)).
    destruct (g (Node e) (Some span) ct s) as [cs s1] eqn:E1.
    destruct P1 as [I1 [X1 _]]. cbn [fst snd] in *.
    rewrite bind_eq.
    assert (Hmid : snd (match cs with
                        | None => ret ct
                        | Some c => bind (getSpan c) (fun cs0 => ret (match cs0 with
                            | Some cs1 => if ct <? EndTimeUnixNano cs1 then EndTimeUnixNano cs1 else ct
                            | None => ct end))
                        end s1) = s1).
    { destruct cs; [rewrite bind_eq|]; reflexivity. }
    rewrite Hmid.
    apply LoopPost_trans with s1; [exact X1|].
    apply IH; [exact I1|]. apply Ext_length with s; assumption.
Qed.

Lemma parallel_loop_inv : forall edges span endTime ct (s : GenState St),
  Inv tid s -> (span < length (spans s))%nat ->
  LoopPost tid s (parallel_loop g span endTime edges ct s).
Proof.
  induction edges as [|e rest IH]; intros span endTime ct s HI Hs; cbn [parallel_loop].
  - split; [exact HI|apply Ext_refl].
  - apply LoopPost_bind.
    + destruct (0 <? endTime - ct).
      * unfold rFloat64. rstep_as E0 R0 M0 a s'.
        assert (I0 : Inv tid s') by (apply Inv_same with s; assumption).
        rewrite bind_eq.
        assert (P1 := Hg (Node e) (Some span) (ct + trunc (a * (1 # 5) * inject_Z (endTime - ct))%Q)
                        s' I0 ltac:(intros p Ep; injection Ep as <-; rewrite R0; exact Hs)).
        match goal with |- context [g ?n ?p ?t s'] => destruct (g n p t s') as [cs s1] eqn:E1 end.
        destruct P1 as [I1 [X1 _]]. cbn [fst snd] in *.
        apply LoopPost_trans with s'; [apply Ext_same; exact R0|].
        apply LoopPost_trans with s1; [exact X1|].
        destruct cs as [c|].
        -- rewrite bind_eq. cbn [getSpan fst snd].
           destruct (nth_error (spans s1) c) as [cs|]; [|split; [exact I1|apply Ext_refl]].
           destruct (Node e) as [cn|]; [|split; [exact I1|apply Ext_refl]].
           destruct (is_error (Status_ cs) && ErrorPropagates cn)%bool.
           ++ apply markParentError_inv. exact I1.
           ++ split; [exact I1|apply Ext_refl].
        -- split; [exact I1|apply Ext_refl].
      * split; [exact HI|apply Ext_refl].
    + intros u s1 I1 X1. apply IH; [exact I1|]. apply Ext_length with s; assumption.
Qed.

End Loops.

Section Gen.
Context {St : Type} `{RandSource St} {TraceCtx : Type}.
Variable helpers : Helpers St TraceCtx.
Variable defaults : TreeDefaults.
Variable traceCtx : TraceCtx.
Variable traceID : list Z.

Lemma generateSpansFromNode_inv : forall fuel node parent pst (s : GenState St),
  Inv traceID s -> (forall p, parent = Some p -> (p < length (spans s))%nat) ->
  GenPost traceID s
    (generateSpansFromNode helpers defaults traceCtx traceID fuel node parent pst s).
Proof.
  induction fuel as [|fuel IH]; intros node parent pst s HI Hp.
  - split; [exact HI|split; [apply Ext_refl|intros i Hi; discriminate]].
  - destruct node as [nd|]; [|split; [exact HI|split; [apply Ext_refl|intros i Hi; discriminate]]].
    cbn [generateSpansFromNode].
    rstep_as E1 R1 M1 d s1.
    rstep_as E2 R2 M2 timing s2.
    unfold rFloat64.
    rstep_as E3 R3 M3 ev s3.
    rstep_as E4 R4 M4 status s4.
    pose proof (randomBytes_length 8 s4) as Hlen.
    rstep_as E5 R5 M5 spanID s5. try rewrite E5 in Hlen. cbn [fst] in Hlen.
    pose proof (parentSpanId_val parent s5) as Hpid.
    rstep_as E6 R6 M6 pid s6. try rewrite E6 in Hpid. injection Hpid as Hpid _.
    rstep_as E7 R7 M7 sem s7.
    rstep_as E8 R8 M8 tags s8.
    assert (Hs8 : spans s8 = spans s) by congruence.
    assert (Hm8 : spansByService s8 = spansByService s) by congruence.
    assert (I8 : Inv traceID s8) by (apply Inv_same with s; assumption).
    rewrite bind_eq.
    match goal with |- context [appendSpan ?svc ?sp s8] =>
      assert (A := appendSpan_inv traceID svc sp s8 I8); set (spn := sp) in * end.
    destruct A as [I9 [X9 L9]].
    + unfold span_ok, spn. cbn [TraceId SpanId].
      split; [reflexivity|exact Hlen].
    + unfold parent_ok, spn. cbn [ParentSpanId].
      destruct parent as [p|].
      * right. assert (Hlt := Hp p eq_refl).
        destruct (nth_error (spans s) p) as [ps|] eqn:Eps; [|apply nth_error_None in Eps; lia].
        assert (Eps5 : nth_error (spans s5) p = Some ps) by congruence.
        rewrite Eps5 in Hpid. exists p, ps. split; [congruence|congruence].
      * left. exact Hpid.
    + reflexivity.
    + destruct (appendSpan (Service nd) spn s8) as [span s9] eqn:E9. cbn [fst snd] in *.
      assert (X09 : Ext s s9) by (apply Ext_trans with s8; [apply Ext_same; exact Hs8|exact X9]).
      assert (Hspan : (span < length (spans s9))%nat).
      { unfold appendSpan in E9. injection E9 as E9a E9b. rewrite <- E9b, <- E9a.
        cbn [spans]. rewrite length_app. cbn [length]. lia. }
      destruct (Children nd) as [|k kids].
      * split; [exact I9|split; [exact X09|intros i Hi; injection Hi as <-; exact Hspan]].
      * apply GenPost_trans with s9; [exact X09|].
        rstep_as E10 R10 M10 sel s10.
        assert (I10 : Inv traceID s10) by (apply Inv_same with s9; assumption).
        assert (Hs10 : (span < length (spans s10))%nat) by (rewrite R10; exact Hspan).
        apply GenPost_trans with s10; [apply Ext_same; exact R10|].
        apply GenPost_bind.
        { apply sequential_loop_inv; [|exact I10|exact Hs10].
          intros node parent' pst' s' HI' Hp'. apply IH; assumption. }
        intros ct s11 I11 X11.
        apply GenPost_bind.
        { apply parallel_loop_inv; [|exact I11|apply Ext_length with s10; assumption].
          intros node parent' pst' s' HI' Hp'. apply IH; assumption. }
        intros u s12 I12 X12.
        split; [exact I12|split; [apply Ext_refl|]].
        intros i Hi. injection Hi as <-. apply Ext_length with s11; [exact X12|].
        apply Ext_length with s10; assumption.
Qed.

End Gen.

Section Out.
Context {St : Type} `{RandSource St} {TraceCtx : Type}.
Variable helpers : Helpers St TraceCtx.

Lemma spansOf_sound : forall tid (gs : GenState St) svc sp,
  Inv tid gs -> In sp (spansOf gs svc) ->
  exists i, nth_error (spans gs) i = Some sp /\ hd_error (Attributes sp) = service_attr svc.
Proof.
  intros tid gs svc sp [_ [_ I3]] Hin. unfold spansOf in Hin.
  destruct (find _ _) as [[k idxs]|] eqn:F; [|contradiction].
  apply find_some in F as [Fin Fk]. cbn in Fk. apply String.eqb_eq in Fk. subst k.
  apply in_flat_map in Hin as [i [Hi Hsp]].
  destruct (nth_error (spans gs) i) as [x|] eqn:E; [|contradiction].
  destruct Hsp as [<-|[]].
  destruct (I3 svc idxs i Fin Hi) as [y [Ey Ay]]. rewrite E in Ey. injection Ey as <-.
  exists i. split; [exact E|exact Ay].
Qed.

Lemma spansOf_complete : forall tid (gs : GenState St) i sp,
  Inv tid gs -> nth_error (spans gs) i = Some sp ->
  exists k, In k (map fst (spansByService gs)) /\ In sp (spansOf gs k).
Proof.
  intros tid gs i sp [_ [I2 _]] E.
  assert (Hi : (i < length (spans gs))%nat) by (apply nth_error_Some; congruence).
  destruct (I2 i Hi) as [k [idxs [F Hk]]]. exists k. split.
  - unfold find_service in F. apply find_some in F as [Fin _].
    apply in_map_iff. exists (k, idxs). split; [reflexivity|exact Fin].
  - unfold spansOf. unfold find_service in F. rewrite F.
    apply in_flat_map. exists i. split; [exact Hk|]. rewrite E. left. reflexivity.
Qed.

Lemma resourceSpans_loop_in : forall (gs : GenState St) keys r rs,
  In rs (resourceSpans_loop helpers gs keys r) ->
  exists svc attrs, In svc keys /\
    ResourceAttributes rs = assoc_set "service.name" svc attrs /\ ScopeSpans rs = spansOf gs svc.
Proof.
  intros gs keys. induction keys as [|k keys IH]; intros r rs Hin; cbn in Hin; [contradiction|].
  destruct (generateResourceAttributes helpers k r) as [ra r'].
  destruct Hin as [<-|Hin].
  - exists k, ra. split; [left; reflexivity|split; reflexivity].
  - destruct (IH r' rs Hin) as [svc [attrs [Hk Rest]]]. exists svc, attrs. split; [right; exact Hk|exact Rest].
Qed.

Lemma resourceSpans_loop_complete : forall (gs : GenState St) keys r svc,
  In svc keys -> exists rs, In rs (resourceSpans_loop helpers gs keys r) /\ ScopeSpans rs = spansOf gs svc.
Proof.
  intros gs keys. induction keys as [|k keys IH]; intros r svc Hin; [contradiction|].
  cbn. destruct (generateResourceAttributes helpers k r) as [ra r'].
  destruct Hin as [<-|Hin].
  - eexists. split; [left; reflexivity|reflexivity].
  - destruct (IH r' svc Hin) as [rs [Hrs Hsc]]. exists rs. split; [right; exact Hrs|exact Hsc].
Qed.

Lemma Inv_empty : forall tid (r : St), Inv tid (mkGenState r [] []).
Proof.
  intros tid r. split; [|split].
  - intros i sp E. destruct i; discriminate.
  - intros i Hi. cbn in Hi. lia.
  - intros k idxs i [].
Qed.

Lemma GenerateTraceFromTree_arena : forall config now crypto mapOrder,
  exists tid (gs : GenState St) r,
    (Seed config <> 0 -> length tid = 16%nat) /\ (Seed config = 0 -> tid = crypto) /\
    Inv tid gs /\
    GenerateTraceFromTree helpers config now crypto mapOrder =
    resourceSpans_loop helpers gs (mapOrder (map fst (spansByService gs))) r.
Proof.
  intros config now crypto mapOrder. unfold GenerateTraceFromTree.
  match goal with |- context [NewTreeTraceContext ?h ?c ?r] =>
    destruct (NewTreeTraceContext h c r) as [tc r1] end.
  assert (Htid : exists tid (g2 : GenState St),
            (if negb (Seed config =? 0) then randomBytes 16 (mkGenState r1 [] [])
             else (crypto, mkGenState r1 [] [])) = (tid, g2) /\
            spans g2 = [] /\ spansByService g2 = [] /\
            (Seed config <> 0 -> length tid = 16%nat) /\ (Seed config = 0 -> tid = crypto)).
  { destruct (Seed config =? 0) eqn:Es; cbn [negb].
    - apply Z.eqb_eq in Es. exists crypto, (mkGenState r1 [] []).
      split; [reflexivity|split; [reflexivity|split; [reflexivity|split; [|auto]]]]. lia.
    - apply Z.eqb_neq in Es.
      destruct (rng_only_randomBytes 16 (mkGenState r1 [] [])) as [S1 S2].
      pose proof (randomBytes_length 16 (mkGenState r1 [] [])) as L.
      destruct (randomBytes 16 (mkGenState r1 [] [])) as [tid g2].
      exists tid, g2. split; [reflexivity|]. cbn in S1, S2, L.
      split; [exact S1|split; [exact S2|split; [auto|lia]]]. }
  destruct Htid as [tid [g2 [Eq [S1 [S2 [L1 L2]]]]]]. rewrite Eq.
  unfold rIntn.
  destruct (rng_only_rlift (Intn 3600) g2) as [S3 S4].
  destruct (rlift (Intn 3600) g2) as [k g3]. cbn in S3, S4.
  match goal with |- context [generateSpansFromNode ?h ?d ?t ?i ?f ?n None ?p g3] =>
    pose proof (generateSpansFromNode_inv h d t i f n None p g3) as G;
    destruct (generateSpansFromNode h d t i f n None p g3) as [x gs] end.
  destruct G as [G _].
  - apply Inv_same with (mkGenState (rng g3) [] []); [cbn; congruence|cbn; congruence|apply Inv_empty].
  - intros p Ep. discriminate.
  - exists tid, gs, (rng gs). cbn [snd] in G.
    split; [exact L1|split; [exact L2|split; [exact G|reflexivity]]].
Qed.

End Out.

End TreeInvFacts.

Module TraceShapeFacts.
Import TreeGen TreeInv TreeInvFacts.


(** X3.  Every span that [GenerateTraceFromTree] hands to
    [spanProtoToPtrace] is a root (empty parent id) or its parent id is the
    span id of a span of the same output, provided the iteration over the
    map [spansByService] visits every service. *)
Theorem GenerateTraceFromTree_parent_in_trace {St} `{RandSource St} {TraceCtx}
  (helpers : Helpers St TraceCtx) (config : TraceTreeConfig) (now : Z)
  (cryptoTraceID : list Z) (mapOrder : list string -> list string)
  (Hmap : forall l x, In x l -> In x (mapOrder l)) :
  let out := GenerateTraceFromTree helpers config now cryptoTraceID mapOrder in
  Forall (fun rs => Forall (fun sp =>
      ParentSpanId sp = [] \/
      exists rs' pp, In rs' out /\ In pp (ScopeSpans rs') /\ SpanId pp = ParentSpanId sp)
    (ScopeSpans rs)) out.
Proof.
  intro out.
  destruct (GenerateTraceFromTree_arena helpers config now cryptoTraceID mapOrder)
    as [tid [gs [r [_ [_ [I E]]]]]].
  subst out. rewrite E.
  apply Forall_forall. intros rs Hrs. apply Forall_forall. intros sp Hsp.
  destruct (resourceSpans_loop_in helpers gs _ r rs Hrs) as [svc [attrs [_ [_ Hsc]]]].
  rewrite Hsc in Hsp. destruct (spansOf_sound tid gs svc sp I Hsp) as [i [Ei _]].
  destruct (proj1 I i sp Ei) as [_ [P|[j [pp [Ej Sj]]]]]; [left; exact P|right].
  destruct (spansOf_complete tid gs j pp I Ej) as [k [Hk Hpp]].
  destruct (resourceSpans_loop_complete helpers gs (mapOrder (map fst (spansByService gs))) r k
              (Hmap _ _ Hk)) as [rs' [Hrs' Hsc']].
  exists rs', pp. split; [exact Hrs'|split; [rewrite Hsc'; exact Hpp|exact Sj]].
Qed.

End TraceShapeFacts.

Module LCGFacts.
Import TreeGen TreeScenarios.
Lemma LCG_Float64_nonneg : forall r : Z, (0 <= fst (Float64 r))%Q.
Proof.
  intro r. cbn [Float64 LCG fst]. unfold Qle. cbn [Qnum Qden]. rewrite Z.mul_1_r, Z.mul_0_l.
  apply Z.shiftr_nonneg. unfold lcg_next. apply Z.mod_pos_bound. lia.
Qed.
Lemma LCG_Intn_range : forall n (r : Z), 0 < n -> 0 <= fst (Intn n r) < n.
Proof. intros n r Hn. cbn [Intn LCG fst]. apply Z.mod_pos_bound. exact Hn. Qed.
End LCGFacts.

Module TraceShapeWitness.
Import TreeGen Scenarios TreeScenarios LCGFacts TraceShapeFacts.

Lemma GenerateTraceFromTree_parent_in_trace_witness :
  let out := GenerateTraceFromTree demoHelpers cfg_tree T0 [] (fun l => l) in
  Forall (fun rs => Forall (fun sp =>
      ParentSpanId sp = [] \/
      exists rs' pp, In rs' out /\ In pp (ScopeSpans rs') /\ SpanId pp = ParentSpanId sp)
    (ScopeSpans rs)) out.
Proof.
  apply (GenerateTraceFromTree_parent_in_trace demoHelpers cfg_tree T0 [] (fun l => l)).
  intros l x Hx. exact Hx.
Defined.
End TraceShapeWitness.

(** ** Proofs: edge weights and counts *)
Module EdgeFacts.
Import TreeGen TreeProps TreeInv TreeInvFacts.

Lemma Qltb_true : forall x y, Qltb x y = true <-> (x < y)%Q.
Proof.
  intros x y. unfold Qltb. rewrite Bool.negb_true_iff. split.
  - intro E. apply Qnot_le_lt. intro L. apply Qle_bool_iff in L. congruence.
  - intro L. destruct (Qle_bool y x) eqn:E; [|reflexivity].
    apply Qle_bool_iff in E. exfalso. apply (Qlt_not_le _ _ L E).
Qed.

Lemma Qltb_false : forall x y, Qltb x y = false <-> (y <= x)%Q.
Proof.
  intros x y. unfold Qltb. rewrite Bool.negb_false_iff. apply Qle_bool_iff.
Qed.

Lemma posWeightSum_nil : posWeightSum [] = 0%Q.
Proof. reflexivity. Qed.

Lemma posWeightSum_cons : forall e l,
  posWeightSum (e :: l) = if Qltb 0 (Weight e) then (Weight e + posWeightSum l)%Q else posWeightSum l.
Proof. reflexivity. Qed.

Lemma fold_total : forall l acc,
  (fold_left (fun acc e => if Qltb 0 (Weight e) then (acc + Weight e)%Q else acc) l acc
   == acc + posWeightSum l)%Q.
Proof.
  induction l as [|e l IH]; intro acc; cbn [fold_left]; rewrite ?posWeightSum_nil, ?posWeightSum_cons.
  - ring.
  - destruct (Qltb 0 (Weight e)); rewrite IH; ring.
Qed.

Lemma posWeightSum_pos : forall l, (exists e, In e l /\ 0 < Weight e)%Q -> (0 < posWeightSum l)%Q.
Proof.
  induction l as [|e l IH]; intros [e' [Hin Hw]]; [contradiction|].
  assert (Hnn : forall l, (0 <= posWeightSum l)%Q).
  { induction l0 as [|x l0 IH0]; cbn; [apply Qle_refl|].
    destruct (Qltb 0 (Weight x)) eqn:E; [|exact IH0].
    apply Qltb_true in E. apply Qle_trans with (Weight x + 0)%Q.
    - rewrite Qplus_0_r. apply Qlt_le_weak. exact E.
    - apply Qplus_le_r. exact IH0. }
  cbn. destruct Hin as [<-|Hin].
  - assert (E : Qltb 0 (Weight e) = true) by (apply Qltb_true; exact Hw). rewrite E.
    apply Qlt_le_trans with (Weight e + 0)%Q; [rewrite Qplus_0_r; exact Hw|].
    apply Qplus_le_r. apply Hnn.
  - destruct (Qltb 0 (Weight e)) eqn:E.
    + apply Qltb_true in E. apply Qlt_le_trans with (0 + posWeightSum l)%Q.
      * rewrite Qplus_0_l. apply IH. exists e'. auto.
      * apply Qplus_le_l. apply Qlt_le_weak. exact E.
    + apply IH. exists e'. auto.
Qed.

Lemma posWeightSum_scale : forall l t, (0 < t)%Q ->
  (posWeightSum (map (fun e => if Qltb 0 (Weight e) then setWeight (Weight e / t)%Q e else e) l)
   == posWeightSum l / t)%Q.
Proof.
  intros l t Ht. induction l as [|e l IH]; cbn [map]; rewrite ?posWeightSum_nil, ?posWeightSum_cons.
  - unfold Qdiv. ring.
  - destruct (Qltb 0 (Weight e)) eqn:E.
    + assert (E' : Qltb 0 (Weight (setWeight (Weight e / t) e)) = true).
      { destruct e as [w p c n]. cbn in *. apply Qltb_true. apply Qltb_true in E.
        apply Qlt_shift_div_l; [exact Ht|]. rewrite Qmult_0_l. exact E. }
      rewrite E'. rewrite IH. destruct e as [w p c n]. cbn. unfold Qdiv. ring.
    + rewrite E. exact IH.
Qed.

Lemma posWeightSum_const : forall l c, (0 < c)%Q ->
  (posWeightSum (map (setWeight c) l) == inject_Z (Z.of_nat (length l)) * c)%Q.
Proof.
  intros l c Hc. induction l as [|e l IH]; cbn [map length]; rewrite ?posWeightSum_nil, ?posWeightSum_cons.
  - ring.
  - assert (E : Qltb 0 (Weight (setWeight c e)) = true) by (destruct e; apply Qltb_true; exact Hc).
    rewrite E. rewrite IH. destruct e. cbn [Weight setWeight].
    rewrite Nat2Z.inj_succ. unfold Z.succ. rewrite inject_Z_plus. ring.
Qed.

Lemma map_setWeight_shape : forall (f : TraceTreeEdge -> Q) l,
  map (fun e => (Parallel e, Count e, Node e)) (map (fun e => setWeight (f e) e) l)
  = map (fun e => (Parallel e, Count e, Node e)) l.
Proof. intros f l. rewrite map_map. apply map_ext. intros []; reflexivity. Qed.

Lemma NormalizeWeights_In : forall edges e',
  (exists e, In e edges /\ (0 < Weight e)%Q) ->
  In e' (NormalizeWeights edges) ->
  exists e, In e edges /\ (Qltb 0 (Weight e) = true -> Weight e' = Weight e / fold_left (fun acc e => if Qltb 0 (Weight e) then (acc + Weight e)%Q else acc) edges 0)%Q
    /\ (Qltb 0 (Weight e) = false -> e' = e)
    /\ Parallel e' = Parallel e /\ Count e' = Count e /\ Node e' = Node e.
Proof.
  intros edges e' [e0 [Hin0 Hw0]] Hin. unfold NormalizeWeights in Hin. cbv zeta in Hin.
  destruct (Nat.eqb _ 0) eqn:D.
  - apply Nat.eqb_eq, length_zero_iff_nil in D.
    assert (Hf : In e0 (filter (fun e => Qltb 0 (Weight e)) edges)).
    { apply filter_In. split; [exact Hin0|]. apply Qltb_true. exact Hw0. }
    rewrite D in Hf. contradiction.
  - apply in_map_iff in Hin. destruct Hin as [e [<- Hin]]. exists e. split; [exact Hin|].
    destruct (Qltb 0 (Weight e)) eqn:E; destruct e; cbn; repeat split; congruence.
Qed.

(** Selection keeps only edges of the input with a positive weight. *)
Lemma SelectChildren_sound {St} `{RandSource St} :
  (forall r : St, (0 <= fst (Float64 r))%Q) ->
  forall edges s, Forall (fun e => In e edges /\ (0 < Weight e)%Q) (fst (SelectChildren edges s)).
Proof.
  intros HF edges. induction edges as [|edge rest IH]; intro s; cbn [SelectChildren].
  - constructor.
  - rewrite bind_eq. unfold rFloat64 at 1, rlift at 1.
    destruct (Float64 (rng s)) as [f r] eqn:Ef. cbn [fst snd].
    assert (Hf : (0 <= f)%Q) by (specialize (HF (rng s)); rewrite Ef in HF; exact HF).
    destruct (Qltb f (Weight edge)) eqn:Ew.
    + apply Qltb_true in Ew. rewrite !bind_eq. cbn [ret fst].
      apply Forall_app. split.
      * apply Forall_forall. intros x Hx. apply repeat_spec in Hx. subst x.
        split; [left; reflexivity|]. apply Qle_lt_trans with f; assumption.
      * eapply Forall_impl; [|apply IH]. intros e [Hi Hp]. split; [right; exact Hi|exact Hp].
    + eapply Forall_impl; [|apply IH]. intros e [Hi Hp]. split; [right; exact Hi|exact Hp].
Qed.

Lemma SelectChildren_length {St} `{RandSource St} :
  (forall n r, 0 < n -> 0 <= fst (Intn n r) < n) ->
  forall edges s, (length (fst (SelectChildren edges s)) <= list_sum (map maxCopies edges))%nat.
Proof.
  intros HI edges. induction edges as [|edge rest IH]; intro s; cbn [SelectChildren map].
  - cbn. lia.
  - change (list_sum (maxCopies edge :: map maxCopies rest))
      with (maxCopies edge + list_sum (map maxCopies rest))%nat.
    rewrite bind_eq. destruct (Qltb _ (Weight edge)).
    + rewrite !bind_eq. cbn [ret fst]. rewrite length_app, repeat_length.
      match goal with |- (Z.to_nat (fst (?c ?s0)) + length (fst (SelectChildren rest ?s1)) <= _)%nat =>
        enough (Z.to_nat (fst (c s0)) <= maxCopies edge)%nat by (specialize (IH s1); lia) end.
      unfold maxCopies. destruct (0 <? Max (Count edge)) eqn:E1.
      * destruct (Min (Count edge) <? Max (Count edge)) eqn:E2.
        -- rewrite bind_eq. unfold rIntn at 1, rlift at 1. cbn [ret fst].
           match goal with |- context [Intn ?n ?r] =>
             assert (Hk := HI n r); destruct (Intn n r) as [k r'] end. cbn [fst] in *.
           rewrite Z.ltb_lt in *. specialize (Hk ltac:(lia)). lia.
        -- cbn [ret fst]. rewrite Z.ltb_lt, Z.ltb_ge in *. lia.
      * cbn. lia.
    + specialize (IH (snd (rFloat64 s))). lia.
Qed.
End EdgeFacts.

Module EdgeTheorems.
Import TreeGen TreeProps TreeInv TreeInvFacts EdgeFacts.

(** X4.  [NormalizeWeights] of a non-empty edge list: the positive weights of
    the result sum to exactly 1, and each edge keeps its place, its
    [Parallel] flag, its [Count] and its target node. *)
Theorem NormalizeWeights_sum_one (edges : list TraceTreeEdge) :
  edges <> [] ->
  (posWeightSum (NormalizeWeights edges) == 1)%Q /\
  map (fun e => (Parallel e, Count e, Node e)) (NormalizeWeights edges)
  = map (fun e => (Parallel e, Count e, Node e)) edges.
Proof.
  intro Hne. unfold NormalizeWeights. cbv zeta.
  destruct (Nat.eqb _ 0) eqn:D.
  - assert (Hn : (0 < inject_Z (Z.of_nat (length edges)))%Q).
    { destruct edges; [congruence|]. cbn [length]. unfold Qlt. cbn. lia. }
    split.
    + rewrite posWeightSum_const.
      * field. intro Z0. rewrite Z0 in Hn. discriminate.
      * apply Qlt_shift_div_l; [exact Hn|]. rewrite Qmult_0_l. reflexivity.
    + apply (map_setWeight_shape (fun _ => _)).
  - apply Nat.eqb_neq in D.
    destruct (filter (fun e => Qltb 0 (Weight e)) edges) as [|e0 l0] eqn:F; [cbn in D; congruence|].
    assert (Hin0 : In e0 (filter (fun e => Qltb 0 (Weight e)) edges)) by (rewrite F; left; reflexivity).
    apply filter_In in Hin0. destruct Hin0 as [Hin0 Hw0]. apply Qltb_true in Hw0.
    assert (Hpos : (0 < posWeightSum edges)%Q) by (apply posWeightSum_pos; exists e0; auto).
    assert (Ht : (0 < fold_left (fun acc e => if Qltb 0 (Weight e) then (acc + Weight e)%Q else acc) edges 0)%Q).
    { rewrite fold_total, Qplus_0_l. exact Hpos. }
    split.
    + assert (Hne0 : ~ (posWeightSum edges == 0)%Q) by (intro Z0; rewrite Z0 in Hpos; discriminate).
      rewrite (posWeightSum_scale _ _ Ht). rewrite fold_total, Qplus_0_l. field. exact Hne0.
    + rewrite map_map. apply map_ext. intro e. destruct (Qltb 0 (Weight e)); destruct e; reflexivity.
Qed.

(** X5.  When some child edge has a positive configured weight, selecting
    children from the normalized edges never instantiates an edge whose
    configured weight is zero or negative: every selected edge comes from
    a positively weighted configured edge, with its flag, count and node. *)
Theorem SelectChildren_NormalizeWeights_positive {St} `{RandSource St}
  (HF : forall r : St, (0 <= fst (Float64 r))%Q)
  (edges : list TraceTreeEdge) (Hpos : exists e, In e edges /\ (0 < Weight e)%Q)
  (s : GenState St) :
  Forall (fun e' => exists e, In e edges /\ (0 < Weight e)%Q /\ Parallel e' = Parallel e
                           /\ Count e' = Count e /\ Node e' = Node e)
    (fst (SelectChildren (NormalizeWeights edges) s)).
Proof.
  eapply Forall_impl; [|apply (SelectChildren_sound HF)].
  intros e' [Hin Hw']. destruct (NormalizeWeights_In edges e' Hpos Hin)
    as [e [He [Hp [Hn [E1 [E2 E3]]]]]].
  exists e. split; [exact He|]. split; [|auto].
  destruct (Qltb 0 (Weight e)) eqn:E.
  - apply Qltb_true. exact E.
  - rewrite (Hn eq_refl) in Hw'. exact Hw'.
Qed.

(** X6.  With [Intn n] drawing in [0, n), the children selected for a node
    number at most the sum over its edges of [max(Min, Max)] when
    [Max > 0] and of 1 otherwise. *)
Theorem SelectChildren_NormalizeWeights_count {St} `{RandSource St}
  (HI : forall n (r : St), 0 < n -> 0 <= fst (Intn n r) < n)
  (edges : list TraceTreeEdge) (s : GenState St) :
  (length (fst (SelectChildren (NormalizeWeights edges) s)) <= list_sum (map maxCopies edges))%nat.
Proof.
  eapply Nat.le_trans; [apply (SelectChildren_length HI)|].
  replace (map maxCopies (NormalizeWeights edges)) with (map maxCopies edges); [lia|].
  unfold NormalizeWeights. cbv zeta. destruct (Nat.eqb _ 0); rewrite map_map; apply map_ext;
    intro e; [|destruct (Qltb 0 (Weight e))]; destruct e; reflexivity.
Qed.

(** X7.  With no variance configured, a duration is exactly the base (50 ms
    when the base is not positive), whatever the normal draw, as long as
    the base in nanoseconds fits in an int64. *)
Theorem calculateDurationFromConfig_no_variance {St} `{RandSource St} (base : Z) (s : GenState St)
  (Hb : (if base <=? 0 then 50 else base) * Millisecond < 2 ^ 63) :
  fst (calculateDurationFromConfig (mkDurationConfig base 0) s)
  = (if base <=? 0 then 50 else base) * Millisecond.
Proof.
  unfold calculateDurationFromConfig, rNormFloat64, rlift, bind, ret. cbn [BaseMs VarianceMs].
  destruct (NormFloat64 (rng s)) as [n r]. cbn [fst].
  set (b := if base <=? 0 then 50 else base) in *.
  assert (Hb1 : 1 <= b) by (subst b; destruct (base <=? 0) eqn:E; [lia|apply Z.leb_gt in E; lia]).
  replace (Qltb (inject_Z b + n * inject_Z (if 0 <? 0 then 30 else 0)) 1) with false.
  - assert (Ht : trunc (inject_Z b + n * inject_Z (if 0 <? 0 then 30 else 0)) = b).
    { unfold trunc. destruct n as [nn nd]. cbn.
      rewrite Z.mul_0_r, Z.mul_0_l, Z.add_0_r, !Pos.mul_1_r. apply Z.quot_mul. lia. }
    unfold float64ToInt64. rewrite Ht. unfold Millisecond in *.
    replace ((- 2 ^ 63 <=? b) && (b <? 2 ^ 63))%bool with true
      by (symmetry; apply andb_true_intro; split; [apply Z.leb_le|apply Z.ltb_lt]; lia).
    unfold wrap64. rewrite Z.mod_small by lia. lia.
  - symmetry. apply Qltb_false. cbn. unfold Qle. destruct n as [nn nd]. cbn. nia.
Qed.
End EdgeTheorems.

Module EdgeWitnesses.
Import TreeGen TreeProps TreeScenarios EdgeScenarios LCGFacts EdgeTheorems.

Lemma NormalizeWeights_sum_one_witness :
  (posWeightSum (NormalizeWeights demoEdges) == 1)%Q /\
  map (fun e => (Parallel e, Count e, Node e)) (NormalizeWeights demoEdges)
  = map (fun e => (Parallel e, Count e, Node e)) demoEdges.
Proof. apply (NormalizeWeights_sum_one demoEdges). discriminate. Defined.

Lemma SelectChildren_NormalizeWeights_positive_witness :
  Forall (fun e' => exists e, In e demoEdges /\ (0 < Weight e)%Q /\ Parallel e' = Parallel e
                           /\ Count e' = Count e /\ Node e' = Node e)
    (fst (SelectChildren (NormalizeWeights demoEdges) T0state)).
Proof.
  apply (SelectChildren_NormalizeWeights_positive LCG_Float64_nonneg demoEdges).
  exists (mkTraceTreeEdge 3 false (mkCountConfig 1 3) (Some (leaf "db" "query" 20 5 0 false))).
  split; [left; reflexivity|reflexivity].
Defined.

Lemma SelectChildren_NormalizeWeights_count_witness :
  (length (fst (SelectChildren (NormalizeWeights demoEdges) T0state))
   <= list_sum (map maxCopies demoEdges))%nat.
Proof. apply (SelectChildren_NormalizeWeights_count LCG_Intn_range demoEdges T0state). Defined.
Lemma calculateDurationFromConfig_no_variance_witness :
  fst (calculateDurationFromConfig (mkDurationConfig 250 0) T0state) = 250 * Millisecond.
Proof.
  apply (calculateDurationFromConfig_no_variance 250 T0state).
  cbn. unfold Millisecond. lia.
Defined.

End EdgeWitnesses.

(** ** Proofs: backoff, executeNext and rate limiters *)
Module BackoffFacts.
Import Workload.

Lemma wrap64_id : forall z, - 2 ^ 63 <= z < 2 ^ 63 -> wrap64 z = z.
Proof.
  intros z Hz. unfold wrap64. rewrite Z.mod_small by lia. lia.
Qed.

Lemma HandleHTTPResponse_le : forall config resp d,
  0 <= MinBackoffMs config <= MaxBackoffMs config ->
  MaxBackoffMs config * Millisecond < 2 ^ 63 ->
  d <= MaxBackoffMs config * Millisecond ->
  HandleHTTPResponse config resp d <= MaxBackoffMs config * Millisecond.
Proof.
  intros config resp d Hm Hmax Hd. unfold HandleHTTPResponse.
  destruct (EnableBackoff config); cbn [negb]; [|exact Hd].
  rewrite (wrap64_id (MaxBackoffMs config * Millisecond)) by (unfold Millisecond in *; lia).
  destruct (_ || _)%bool; [|unfold Millisecond in *; lia].
  assert (Hexp : (if d =? 0 then wrap64 (MinBackoffMs config * Millisecond)
                  else let d0 := trunc (inject_Z d * (3 # 2)) in
                       if MaxBackoffMs config * Millisecond <? d0 then MaxBackoffMs config * Millisecond else d0)
                 <= MaxBackoffMs config * Millisecond).
  { destruct (d =? 0).
    - rewrite wrap64_id by (unfold Millisecond in *; lia). unfold Millisecond in *; lia.
    - cbv zeta. destruct (_ <? _) eqn:E; [lia|]. apply Z.ltb_ge in E. exact E. }
  destruct (negb _); [|exact Hexp].
  destruct (Atoi _); [|exact Hexp].
  destruct (_ <? _) eqn:E; [lia|]. apply Z.ltb_ge in E. exact E.
Qed.

(** X8.  With [0 <= MinBackoffMs <= MaxBackoffMs] and the maximum in
    nanoseconds within int64, a backoff starting at most the maximum
    stays at most [MaxBackoffMs] after every response of any sequence,
    whatever the status codes and [Retry-After] values. *)
Theorem backoff_trace_le_max (config : QueryWorkloadConfig) (d : Z) (resps : list HTTPResponse)
  (Hm : 0 <= MinBackoffMs config <= MaxBackoffMs config)
  (Hmax : MaxBackoffMs config * Millisecond < 2 ^ 63)
  (Hd : d <= MaxBackoffMs config * Millisecond) :
  Forall (fun x => x <= MaxBackoffMs config * Millisecond) (backoff_trace config d resps).
Proof.
  revert d Hd. induction resps as [|r rs IH]; intros d Hd; cbn [backoff_trace]; constructor.
  - apply HandleHTTPResponse_le; assumption.
  - apply IH. apply HandleHTTPResponse_le; assumption.
Qed.

Lemma stay_negative : forall config r d,
  EnableBackoff config = true ->
  0 <= MaxBackoffMs config * Millisecond < 2 ^ 63 ->
  (StatusCode r = 429 \/ 500 <= StatusCode r < 600) -> RetryAfter r = ""%string ->
  d < 0 -> HandleHTTPResponse config r d < 0.
Proof.
  intros config r d Hen Hmax Hst Hra Hd. unfold HandleHTTPResponse. rewrite Hen. cbn [negb].
  rewrite (wrap64_id (MaxBackoffMs config * Millisecond)) by lia.
  replace ((StatusCode r =? 429) || ((500 <=? StatusCode r) && (StatusCode r <? 600)))%bool with true
    by (destruct Hst as [H|H]; [rewrite H; reflexivity|];
        destruct (StatusCode r =? 429); [reflexivity|]; cbn;
        rewrite (proj2 (Z.leb_le _ _)) by lia; rewrite (proj2 (Z.ltb_lt _ _)) by lia; reflexivity).
  rewrite Hra. cbn [String.eqb negb].
  replace (d =? 0) with false by (symmetry; apply Z.eqb_neq; lia). cbv zeta.
  assert (Ht : trunc (inject_Z d * (3 # 2)) = Z.quot (d * 3) 2) by reflexivity.
  rewrite Ht. assert (Z.quot (d * 3) 2 < 0).
  { assert (Z.quot (d * 3) 2 = - Z.quot (- d * 3) 2) by (rewrite <- Z.quot_opp_l; f_equal; lia).
    rewrite H. assert (0 < Z.quot (- d * 3) 2) by (apply Z.quot_str_pos; lia). lia. }
  destruct (_ <? _) eqn:E; [apply Z.ltb_lt in E; lia|lia].
Qed.

Lemma applyBackoff_nonpos : forall config draw x, x <= 0 -> applyBackoff config draw x = NoDelay.
Proof.
  intros config draw x Hx. unfold applyBackoff.
  destruct (negb (EnableBackoff config)); [reflexivity|].
  replace (0 <? x) with false by (symmetry; apply Z.ltb_ge; lia). reflexivity.
Qed.

(** X9.  With backoff enabled and a maximum backoff [MaxBackoffMs * 1ms] in
    [0, 2^63), a 429 or 5xx response whose [Retry-After] parses to a
    negative number [n] of seconds with [n * 1s >= -2^63] (no int64
    wrap-around) sets the backoff to [n * 1s < 0]; later 429 or 5xx
    responses without [Retry-After] keep it negative, and [applyBackoff]
    never waits on any of these backoffs. *)
Theorem negative_retry_after_never_waits (config : QueryWorkloadConfig) (draw : Z -> Z)
  (resp : HTTPResponse) (n d : Z) (resps : list HTTPResponse)
  (Hen : EnableBackoff config = true)
  (Hmax : 0 <= MaxBackoffMs config * Millisecond < 2 ^ 63)
  (Hst : StatusCode resp = 429 \/ 500 <= StatusCode resp < 600)
  (Hra : Atoi (RetryAfter resp) = Some n) (Hn : - 2 ^ 63 <= n * Second < 0)
  (Hrs : Forall (fun r => (StatusCode r = 429 \/ 500 <= StatusCode r < 600)
                         /\ RetryAfter r = ""%string) resps) :
  HandleHTTPResponse config resp d = n * Second /\
  Forall (fun x => x < 0 /\ applyBackoff config draw x = NoDelay)
    (backoff_trace config d (resp :: resps)).
Proof.
  assert (H1 : HandleHTTPResponse config resp d = n * Second).
  { unfold HandleHTTPResponse. rewrite Hen. cbn [negb].
    rewrite (wrap64_id (MaxBackoffMs config * Millisecond)) by lia.
    replace ((StatusCode resp =? 429) || ((500 <=? StatusCode resp) && (StatusCode resp <? 600)))%bool
      with true
      by (destruct Hst as [H|H]; [rewrite H; reflexivity|];
          destruct (StatusCode resp =? 429); [reflexivity|]; cbn;
          rewrite (proj2 (Z.leb_le _ _)) by lia; rewrite (proj2 (Z.ltb_lt _ _)) by lia; reflexivity).
    destruct (String.eqb (RetryAfter resp) "") eqn:Ee.
    - apply String.eqb_eq in Ee. rewrite Ee in Hra. discriminate.
    - cbn [negb]. rewrite Hra. rewrite wrap64_id by lia.
      replace (MaxBackoffMs config * Millisecond <? n * Second) with false
        by (symmetry; apply Z.ltb_ge; lia). reflexivity. }
  split; [exact H1|]. cbn [backoff_trace]. rewrite H1.
  assert (Hneg : n * Second < 0) by lia.
  generalize (n * Second) Hneg. clear H1 Hneg.
  induction resps as [|r rs IH]; intros x Hx; cbn [backoff_trace].
  - constructor; [|constructor]. split; [exact Hx|apply applyBackoff_nonpos; lia].
  - inversion Hrs as [|? ? [Hr1 Hr2] Hrs']; subst.
    constructor; [split; [exact Hx|apply applyBackoff_nonpos; lia]|].
    apply IH; [exact Hrs'|]. apply stay_negative; assumption.
Qed.

(** X10.  With backoff enabled and a backoff [d] of at least 10 ms whose
    tenth added to it stays below [2^63] (no int64 overflow), [applyBackoff]
    sleeps for [d] plus a jitter below a tenth of [d], and for exactly [d]
    when jitter is off, given [rand.Intn(n)] draws in [0, n). *)
Theorem applyBackoff_sleep_bounds (config : QueryWorkloadConfig) (draw : Z -> Z) (d : Z)
  (Hen : EnableBackoff config = true) (Hd : 10 * Millisecond <= d) (Hmax : d + d / 10 < 2 ^ 63)
  (Hdraw : forall n, 0 < n -> 0 <= draw n < n) :
  exists delay, applyBackoff config draw d = Sleep delay /\ d <= delay /\ 10 * (delay - d) < d /\
    (BackoffJitter config = false -> delay = d).
Proof.
  unfold applyBackoff. rewrite Hen. cbn [negb].
  replace (0 <? d) with true by (symmetry; apply Z.ltb_lt; unfold Millisecond in Hd; lia).
  destruct (BackoffJitter config).
  - unfold Workload.Intn. unfold Millisecond in *.
    rewrite (Z.quot_div_nonneg d) by lia. rewrite Z.quot_div_nonneg by (try apply Z.div_pos; lia).
    set (m := d / 1000000 / 10).
    assert (Hm : 1 <= m) by (subst m; apply Z.div_le_lower_bound; [lia|];
                             apply Z.div_le_lower_bound; lia).
    replace (m <=? 0) with false by (symmetry; apply Z.leb_gt; lia).
    destruct (Hdraw m ltac:(lia)) as [Hj1 Hj2].
    assert (Hmd : 10 * m * 1000000 <= d).
    { subst m. assert (H1 := Z.mul_div_le (d / 1000000) 10 ltac:(lia)).
      assert (H2 := Z.mul_div_le d 1000000 ltac:(lia)). nia. }
    assert (Hd10 : 10 * (d / 10) <= d < 10 * (d / 10) + 10)
      by (split; [apply Z.mul_div_le; lia|pose proof (Z.mod_pos_bound d 10); pose proof (Z.div_mod d 10); lia]).
    rewrite (wrap64_id (draw m * 1000000)) by nia.
    rewrite wrap64_id by nia.
    eexists. split; [reflexivity|]. split; [nia|]. split; [nia|]. discriminate.
  - exists d. split; [reflexivity|]. unfold Millisecond in Hd. split; [lia|]. split; [lia|reflexivity].
Qed.

End BackoffFacts.

Module ExecFacts.
Import Workload QueryClient WorkloadExec.

(** X11.  A plan entry whose query definition or time bucket is missing makes
    [executeNext] fail with that error before any search; the backoff is
    left as it was and the plan index is the one [selectPlanEntry] left. *)
Theorem executeNext_missing_definition (config : QueryWorkloadConfig)
  (queries : string -> option QueryDefinition) (search : string -> QueryOptions -> SearchCall)
  (draw : Z -> Z) (fPlan fJitter : Q) (now : Z) (st : WorkloadState) (pe : PlanEntry)
  (Hbo : applyBackoff config draw (backoffDuration st) <> Panic)
  (Hpe : planEntryOf (fst (selectPlanEntry (ExecutionPlan config) (planIndex st) fPlan)) = Some pe)
  (Hmiss : queries (QueryName pe) = None \/ getTimeBucket config (BucketName pe) = None) :
  let r := executeNext config queries search None draw fPlan fJitter now st in
  (fst r = Returned None (Some (QueryNotFound (QueryName pe))) \/
   fst r = Returned None (Some (BucketNotFound (BucketName pe)))) /\
  backoffDuration (snd r) = backoffDuration st /\
  planIndex (snd r) = snd (selectPlanEntry (ExecutionPlan config) (planIndex st) fPlan).
Proof.
  unfold executeNext.
  destruct (applyBackoff config draw (backoffDuration st)); [| |congruence];
  destruct (selectPlanEntry (ExecutionPlan config) (planIndex st) fPlan) as [c pi];
  cbn [fst snd] in *; rewrite Hpe;
  (destruct (queries (QueryName pe)) as [qd|];
   [destruct Hmiss as [Hq|Hb]; [discriminate|rewrite Hb; cbn; auto]
   |cbn; auto]).
Qed.

Lemma searchWithHTTP_unreachable : forall rfc3339 nowS do_ q o,
  (forall q ps, exists e, do_ q ps = DoErr e) ->
  sHTTP (searchWithHTTP rfc3339 nowS do_ q o) = None /\
  exists e, sErr (searchWithHTTP rfc3339 nowS do_ q o) = Some e.
Proof.
  intros rfc3339 nowS do_ q o Hdo. unfold searchWithHTTP.
  destruct (searchParams rfc3339 nowS o) as [ps|]; [|cbn; eauto].
  destruct (Hdo q ps) as [e ->]. cbn. eauto.
Qed.

(** X12.  When the server cannot be reached (every request fails to send),
    [executeNext] never succeeds: a search error resets the backoff to 0,
    so the next step does not wait, and every earlier failure or panic
    leaves the backoff unchanged. *)
Theorem executeNext_unreachable_resets_backoff (config : QueryWorkloadConfig)
  (queries : string -> option QueryDefinition) (rfc3339 : string -> option Z) (nowS : Z)
  (do_ : string -> list (string * string) -> DoResult)
  (Hdo : forall q ps, exists e, do_ q ps = DoErr e)
  (waitErr : option string) (draw : Z -> Z) (fPlan fJitter : Q) (now : Z) (st : WorkloadState) :
  let r := executeNext config queries (searchWithHTTP rfc3339 nowS do_) waitErr draw fPlan fJitter now st in
  match fst r with
  | Returned _ None => False
  | Returned _ (Some (SearchErr _)) => backoffDuration (snd r) = 0
  | _ => backoffDuration (snd r) = backoffDuration st
  end.
Proof.
  unfold executeNext. destruct waitErr as [e|]; [reflexivity|].
  destruct (applyBackoff config draw (backoffDuration st)); [| |reflexivity];
  destruct (selectPlanEntry (ExecutionPlan config) (planIndex st) fPlan) as [c pi];
  destruct (planEntryOf c) as [pe|]; try reflexivity;
  destruct (queries (QueryName pe)) as [qd|]; try reflexivity;
  destruct (getTimeBucket config (BucketName pe)) as [tb|]; try reflexivity;
  destruct (ParseTimeRanges tb _ now); try reflexivity;
  try unfold executeWithDefaultTimeRange; cbv zeta; cbn [fst snd];
  match goal with |- context [searchOutcome (searchWithHTTP ?a ?b ?c ?q ?o)] =>
    destruct (searchWithHTTP_unreachable a b c q o Hdo) as [Hh [e He]] end;
  unfold searchOutcome, backoffAfterSearch; rewrite Hh, He; reflexivity.
Qed.

End ExecFacts.

Module RateFacts.
Import WorkerRate RateLimit.

(** X13.  Splitting a target rate over [n > 0] workers with
    [CalculatePerWorkerQPS] and [CalculateBurstSize] gives each worker a
    burst of at least 1, and the [n] bursts together cover
    [targetQPS * qpsMultiplier * burstMultiplier]: the ceiling never
    loses capacity. *)
Theorem CalculateBurstSize_covers_total (targetQPS qpsMultiplier burstMultiplier : Q) (n : Z)
  (Hn : 0 < n) :
  let b := CalculateBurstSize (CalculatePerWorkerQPS targetQPS n qpsMultiplier) burstMultiplier in
  1 <= b /\ (targetQPS * qpsMultiplier * burstMultiplier <= inject_Z (n * b))%Q.
Proof.
  cbv zeta. unfold CalculateBurstSize, CalculatePerWorkerQPS.
  replace (n <=? 0) with false by (symmetry; apply Z.leb_gt; lia).
  set (x := (targetQPS * qpsMultiplier / inject_Z n * burstMultiplier)%Q).
  assert (Hc : (x <= inject_Z (Qceiling x))%Q) by apply Qle_ceiling.
  assert (Hb : (inject_Z (Qceiling x) <= inject_Z (if Qceiling x <? 1 then 1 else Qceiling x))%Q).
  { rewrite <- Zle_Qle. destruct (Qceiling x <? 1) eqn:E; [apply Z.ltb_lt in E|]; lia. }
  split; [destruct (Qceiling x <? 1) eqn:E; [lia|apply Z.ltb_ge in E; exact E]|].
  set (b := if Qceiling x <? 1 then 1 else Qceiling x) in *.
  rewrite inject_Z_mult.
  assert (Hn' : (0 < inject_Z n)%Q) by (unfold Qlt; cbn; lia).
  apply Qle_trans with (inject_Z n * x)%Q.
  - subst x. apply Qle_lteq. right. field. intro Z0. rewrite Z0 in Hn'. discriminate.
  - apply Qmult_le_l; [exact Hn'|]. apply Qle_trans with (inject_Z (Qceiling x)); assumption.
Qed.

(** X14.  [SetRate] with a positive rate rebuilds the limiter exactly as
    [NewByteRateLimiter] does with the default multiplier 1.5, whatever
    multiplier the limiter was created with; a rate [<= 0] changes
    nothing. *)
Theorem SetRate_forgets_multiplier (targetMBps burstMultiplier t : Q) :
  SetRate (NewByteRateLimiter targetMBps burstMultiplier) t
  = if Qle_bool t 0 then NewByteRateLimiter targetMBps burstMultiplier
    else NewByteRateLimiter t defaultBurstMultiplier.
Proof.
  unfold SetRate. destruct (Qle_bool t 0) eqn:E; [reflexivity|].
  unfold NewByteRateLimiter. rewrite E. reflexivity.
Qed.

Section WaitTerm.
Variable Ctx : Type.
Variable WaitN : Ctx -> Z -> Limiter -> option string * Limiter.
Hypothesis HW : forall c n l, Burst (snd (WaitN c n l)) = Burst l.

Lemma wait_loop_not_exhausted : forall fuel ctx bytes r,
  1 <= Burst (limiter r) -> bytes <= Z.of_nat fuel ->
  fst (wait_loop Ctx WaitN fuel ctx bytes r) <> WaitLoops.
Proof.
  induction fuel as [|fuel IH]; intros ctx bytes r Hb Hf; cbn [wait_loop].
  - replace (bytes <=? 0) with true by (symmetry; apply Z.leb_le; lia). discriminate.
  - destruct (bytes <=? 0) eqn:E; [discriminate|]. apply Z.leb_gt in E.
    specialize (HW ctx (if Burst (limiter r) <? bytes then Burst (limiter r) else bytes) (limiter r)).
    destruct (WaitN ctx _ (limiter r)) as [[e|] lim'] eqn:EW; [discriminate|].
    cbn [snd] in HW. apply IH.
    + cbn [limiter]. lia.
    + destruct (Burst (limiter r) <? bytes) eqn:E2; [apply Z.ltb_lt in E2|apply Z.ltb_ge in E2]; lia.
Qed.
End WaitTerm.

(** X15.  As long as [WaitN] keeps the limiter's burst (a [rate.Limiter]'s burst
    only changes through [SetBurst]), [Wait] on a limiter built by
    [NewByteRateLimiter] ends with [nil] or with the error of a [WaitN]
    call: its chunk loop always finishes, each chunk taking at least one
    byte. *)
Theorem Wait_terminates (Ctx : Type) (WaitN : Ctx -> Z -> Limiter -> option string * Limiter)
  (HW : forall c n l, Burst (snd (WaitN c n l)) = Burst l)
  (targetMBps burstMultiplier : Q) (ctx : Ctx) (bytes : Z) :
  fst (Wait Ctx WaitN ctx bytes (NewByteRateLimiter targetMBps burstMultiplier)) = WaitOk \/
  exists e, fst (Wait Ctx WaitN ctx bytes (NewByteRateLimiter targetMBps burstMultiplier)) = WaitErr e.
Proof.
  assert (Hb : 1 <= Burst (limiter (NewByteRateLimiter targetMBps burstMultiplier))).
  { unfold NewByteRateLimiter, calculateBurstSize, minBurstSize. cbn [limiter Burst NewLimiter burst].
    destruct (_ <? 1) eqn:E; [lia|apply Z.ltb_ge in E; exact E]. }
  unfold Wait. destruct (bytes <=? 0) eqn:E; [left; reflexivity|]. apply Z.leb_gt in E.
  assert (H := wait_loop_not_exhausted Ctx WaitN HW (Z.to_nat bytes) ctx bytes _ Hb ltac:(lia)).
  destruct (fst (wait_loop Ctx WaitN _ ctx bytes _)) as [|e|]; [left; reflexivity|right; eauto|congruence].
Qed.

End RateFacts.

(** ** Proofs: bearer token *)
Module AuthFacts.
Import Auth.

Lemma prefixb_spec : forall p l, prefixb p l = true <-> exists u, l = p ++ u.
Proof.
  induction p as [|c p IH]; intros [|d l]; cbn.
  - split; eauto.
  - split; eauto.
  - split; [discriminate|intros [u Hu]; discriminate].
  - rewrite andb_true_iff, IH. split.
    + intros [E [u ->]]. apply Ascii.eqb_eq in E. subst. eauto.
    + intros [u Hu]. injection Hu as -> Hu. split; [apply Ascii.eqb_refl|eauto].
Qed.

Lemma trimPrefixes_suffix : forall encs fuel l, exists p, l = p ++ trimPrefixes encs fuel l.
Proof.
  intros encs fuel. induction fuel as [|fuel IH]; intro l; cbn [trimPrefixes].
  - exists []. reflexivity.
  - destruct (find _ encs) as [e|] eqn:F; [|exists []; reflexivity].
    destruct (IH (skipn (length e) l)) as [p Hp].
    exists (firstn (length e) l ++ p). rewrite <- app_assoc, <- Hp. symmetry. apply firstn_skipn.
Qed.

Lemma trimPrefixes_clean : forall encs, Forall (fun e => e <> []) encs ->
  forall fuel l, (length l <= fuel)%nat ->
  Forall (fun e => prefixb e (trimPrefixes encs fuel l) = false) encs.
Proof.
  intros encs Hne fuel. induction fuel as [|fuel IH]; intros l Hl; cbn [trimPrefixes].
  - destruct l; [|cbn in Hl; lia].
    eapply Forall_impl; [|exact Hne]. intros [|c e] He; [congruence|reflexivity].
  - destruct (find (fun e => prefixb e l) encs) as [e|] eqn:F.
    + apply IH. apply find_some in F. destruct F as [Hin Hp].
      rewrite Forall_forall in Hne. specialize (Hne e Hin).
      apply prefixb_spec in Hp. destruct Hp as [u ->].
      rewrite skipn_app, Nat.sub_diag, skipn_all, app_nil_l. cbn [skipn].
      rewrite length_app in Hl. destruct e; [congruence|]. cbn [length] in *. lia.
    + apply Forall_forall. intros e Hin. destruct (prefixb e l) eqn:E; [|reflexivity].
      pose proof (find_none _ _ F e Hin) as H. cbn in H. congruence.
Qed.

Lemma spaceEncodings_nonempty : Forall (fun e => e <> []) spaceEncodings.
Proof. repeat constructor; discriminate. Qed.


Lemma TrimSpace_trimmed : forall s, trimmed (list_ascii_of_string (TrimSpace s)).
Proof.
  intro s. unfold TrimSpace. rewrite list_ascii_of_string_of_list_ascii.
  set (t := TrimLeftFunc_IsSpace (list_ascii_of_string s)).
  assert (HL : Forall (fun e => prefixb e t = false) spaceEncodings)
    by (apply trimPrefixes_clean; [exact spaceEncodings_nonempty|lia]).
  assert (HR : Forall (fun e => prefixb e (trimPrefixes (map (@rev ascii) spaceEncodings) (length t) (rev t)) = false)
                 (map (@rev ascii) spaceEncodings)).
  { apply trimPrefixes_clean; [|rewrite length_rev; lia].
    apply Forall_map. eapply Forall_impl; [|exact spaceEncodings_nonempty].
    intros e He E. apply He. destruct e; [reflexivity|cbn in E; destruct (rev e); discriminate]. }
  destruct (trimPrefixes_suffix (map (@rev ascii) spaceEncodings) (length t) (rev t)) as [p Hp].
  unfold trimmed, TrimRightFunc_IsSpace. fold t.
  set (y := trimPrefixes (map (@rev ascii) spaceEncodings) (length t) (rev t)) in *.
  apply Forall_map in HR.
  rewrite Forall_forall in HL, HR |- *. intros e Hin. split.
  - intros [u Hu]. specialize (HL e Hin).
    assert (Ht : t = rev y ++ rev p) by (rewrite <- rev_app_distr, <- Hp, rev_involutive; reflexivity).
    assert (prefixb e t = true) by (apply prefixb_spec; exists (u ++ rev p); rewrite Ht, Hu, app_assoc; reflexivity).
    congruence.
  - intros [u Hu]. specialize (HR e Hin).
    assert (prefixb (rev e) y = true).
    { apply prefixb_spec. exists (rev u). rewrite <- (rev_involutive y), Hu, rev_app_distr. reflexivity. }
    congruence.
Qed.

Lemma empty_trimmed : trimmed (list_ascii_of_string "").
Proof.
  unfold trimmed. apply Forall_forall. intros e Hin. cbn.
  assert (e <> []) by (exact (proj1 (Forall_forall _ _) spaceEncodings_nonempty e Hin)).
  split; intros [u Hu]; [destruct e; [congruence|discriminate]|].
  destruct u; [cbn in Hu; congruence|discriminate].
Qed.

(** X16.  Whatever the sources hold, the token [ResolveBearerToken] returns
    has no Unicode white space at either end. *)
Theorem ResolveBearerToken_trimmed (ReadFile : string -> ReadFileResult)
  (bearerToken bearerTokenFile : string) :
  trimmed (list_ascii_of_string (fst (ResolveBearerToken ReadFile bearerToken bearerTokenFile))).
Proof.
  unfold ResolveBearerToken, readTokenFromFile.
  destruct (negb _); [apply TrimSpace_trimmed|].
  destruct (negb (String.eqb bearerTokenFile "")); cbv zeta;
  repeat match goal with
  | |- context [match ?x with FileNotExist => _ | _ => _ end] => destruct x
  | |- context [if negb (String.eqb ?t "") then _ else _] => destruct (negb (String.eqb t ""))
  end; cbn [fst]; first [apply TrimSpace_trimmed | apply empty_trimmed].
Qed.

(** X17.  [ResolveBearerToken] fails exactly when no explicit token is given, a
    token file is named, and reading that file fails with an error other
    than "does not exist"; a failure to read the Kubernetes service
    account token is never reported. *)
Theorem ResolveBearerToken_error_iff (ReadFile : string -> ReadFileResult)
  (bearerToken bearerTokenFile : string) :
  snd (ResolveBearerToken ReadFile bearerToken bearerTokenFile) <> None <->
  bearerToken = ""%string /\ bearerTokenFile <> ""%string /\
  exists e, ReadFile bearerTokenFile = FileError e.
Proof.
  unfold ResolveBearerToken, readTokenFromFile.
  destruct (String.eqb bearerToken "") eqn:Et; cbn [negb].
  - apply String.eqb_eq in Et. subst.
    destruct (String.eqb bearerTokenFile "") eqn:Ef; cbn [negb].
    + apply String.eqb_eq in Ef. subst.
      split; [|intros [_ [H _]]; congruence].
      destruct (ReadFile KubernetesServiceAccountTokenPath); cbn;
        try (destruct (negb _)); cbn; congruence.
    + apply String.eqb_neq in Ef.
      destruct (ReadFile bearerTokenFile) as [|e|d] eqn:R; cbn [fst snd].
      * split; [|intros [_ [_ [e He]]]; discriminate].
        destruct (ReadFile KubernetesServiceAccountTokenPath); cbn;
          try (destruct (negb _)); cbn; congruence.
      * split; [eauto|discriminate].
      * split; [|intros [_ [_ [e He]]]; discriminate].
        destruct (negb (String.eqb (TrimSpace d) "")); cbn; [congruence|].
        destruct (ReadFile KubernetesServiceAccountTokenPath); cbn;
          try (destruct (negb _)); cbn; congruence.
  - apply String.eqb_neq in Et. cbn. split; [congruence|intros [H _]; congruence].
Qed.

End AuthFacts.

Module WorkloadWitnesses.
Import Workload QueryClient WorkloadExec WorkerRate RateLimit Scenarios ExecScenarios BackoffFacts ExecFacts RateFacts.


Lemma backoff_trace_le_max_witness :
  Forall (fun x => x <= MaxBackoffMs DefaultQueryWorkloadConfig * Millisecond)
    (backoff_trace DefaultQueryWorkloadConfig 0
       [mkHTTPResponse 503 "120"; resp429; mkHTTPResponse 200 ""]).
Proof.
  apply backoff_trace_le_max; cbn; unfold Millisecond; lia.
Defined.

Lemma negative_retry_after_never_waits_witness :
  HandleHTTPResponse DefaultQueryWorkloadConfig (mkHTTPResponse 503 "-5") 0 = -5 * Second /\
  Forall (fun x => x < 0 /\ applyBackoff DefaultQueryWorkloadConfig (fun n => n - 1) x = NoDelay)
    (backoff_trace DefaultQueryWorkloadConfig 0
       [mkHTTPResponse 503 "-5"; resp429; mkHTTPResponse 500 ""]).
Proof.
  apply (negative_retry_after_never_waits DefaultQueryWorkloadConfig (fun n => n - 1)
           (mkHTTPResponse 503 "-5") (-5) 0 [resp429; mkHTTPResponse 500 ""]).
  - reflexivity.
  - cbn. unfold Millisecond. lia.
  - right. cbn. lia.
  - vm_compute. reflexivity.
  - unfold Second. lia.
  - repeat constructor; cbn; lia.
Defined.

Lemma applyBackoff_sleep_bounds_witness :
  exists delay, applyBackoff DefaultQueryWorkloadConfig (fun n => n - 1) (450 * Millisecond) = Sleep delay
    /\ 450 * Millisecond <= delay /\ 10 * (delay - 450 * Millisecond) < 450 * Millisecond /\
    (BackoffJitter DefaultQueryWorkloadConfig = false -> delay = 450 * Millisecond).
Proof.
  apply applyBackoff_sleep_bounds.
  - reflexivity.
  - unfold Millisecond. lia.
  - unfold Millisecond. cbn. lia.
  - intros n Hn. lia.
Defined.

Lemma executeNext_missing_definition_witness :
  let r := executeNext DefaultQueryWorkloadConfig (fun _ => None) (fun _ _ => mkSearchCall None None None)
             None (fun n => 0) (1 # 2) 0 T0 idleState in
  (fst r = Returned None (Some (QueryNotFound "default")) \/
   fst r = Returned None (Some (BucketNotFound "recent"))) /\
  backoffDuration (snd r) = backoffDuration idleState /\
  planIndex (snd r) = snd (selectPlanEntry (ExecutionPlan DefaultQueryWorkloadConfig) (planIndex idleState) (1 # 2)).
Proof.
  apply (executeNext_missing_definition DefaultQueryWorkloadConfig (fun _ => None)
           (fun _ _ => mkSearchCall None None None) (fun n => 0) (1 # 2) 0 T0 idleState
           (mkPlanEntry "default" "recent" 1)).
  - vm_compute. discriminate.
  - vm_compute. reflexivity.
  - left. reflexivity.
Defined.

Lemma executeNext_unreachable_resets_backoff_witness :
  let r := executeNext DefaultQueryWorkloadConfig defaultQueries
             (searchWithHTTP (fun _ => None) T0 (fun _ _ => DoErr "connection refused"))
             None (fun n => 0) (1 # 2) 0 (T0 + Hour) (setBackoff idleState (5 * Second)) in
  match fst r with
  | Returned _ None => False
  | Returned _ (Some (SearchErr _)) => backoffDuration (snd r) = 0
  | _ => backoffDuration (snd r) = backoffDuration (setBackoff idleState (5 * Second))
  end.
Proof.
  apply executeNext_unreachable_resets_backoff.
  intros q ps. exists "connection refused"%string. reflexivity.
Defined.

Lemma CalculateBurstSize_covers_total_witness :
  let b := CalculateBurstSize (CalculatePerWorkerQPS 10 4 1) (3 # 2) in
  1 <= b /\ (10 * 1 * (3 # 2) <= inject_Z (4 * b))%Q.
Proof. apply CalculateBurstSize_covers_total. lia. Defined.

Lemma Wait_terminates_witness :
  fst (Wait unit (fun _ _ l => (None, l)) tt 3000000 (NewByteRateLimiter 1 (3 # 2))) = WaitOk \/
  exists e, fst (Wait unit (fun _ _ l => (None, l)) tt 3000000 (NewByteRateLimiter 1 (3 # 2))) = WaitErr e.
Proof. apply Wait_terminates. intros c n l. reflexivity. Defined.

End WorkloadWitnesses.
